(** * A shallow embedding of circular_buffer.c

    The C library keeps a ring of [void *] elements in a heap block and two
    cursors.  The embedding below follows the C text function by function.

    Data model (LP64, little endian, as on x86-64 and AArch64 Linux):
    [int] is 32 bits wide, [size_t] and [void *] are 64 bits wide.  A value of
    type [int] is a [Z]; signed overflow, division by zero and out-of-bounds
    array accesses are undefined behaviour and show up as the outcome [UB].
    A [void *] is the [Z] of its address, [NULL] is [0].

    Memory: the object behind [c_buf] and the caller's array behind
    [data_buf] are passed in and handed back explicitly.  A null pointer is
    [None].  The two objects are disjoint (the backing store is owned by the
    buffer alone).  [errno] is reported as the value assigned to it, if any. *)

From Stdlib Require Import ZArith List Lia Bool.
From stdpp Require Import base list.
Import ListNotations.
Local Open Scope Z_scope.

(** ** Machine parameters *)

Definition INT_MAX : Z := 2147483647.
Definition INT_MIN : Z := -2147483648.
Definition SIZE_MOD : Z := 2 ^ 64.          (* size_t arithmetic is modulo this *)
Definition PTRDIFF_MAX : Z := 2 ^ 63 - 1.
Definition sizeof_ptr : Z := 8.             (* sizeof(void * ) *)

Definition ptr : Type := Z.
Definition NULL : ptr := 0.

Inductive errno_t : Type := EINVAL | ENOMEM.

(** ** Outcomes of a call *)

Inductive outcome (A : Type) : Type :=
| Done (a : A)        (* the call returns *)
| UB                  (* the call has undefined behaviour *)
| OutOfFuel.          (* a loop of the model ran out of fuel *)

Arguments Done {A} a.
Arguments UB {A}.
Arguments OutOfFuel {A}.

Definition bind {A B : Type} (m : outcome A) (k : A -> outcome B) : outcome B :=
  match m with
  | Done a => k a
  | UB => UB
  | OutOfFuel => OutOfFuel
  end.

Notation "'do' x <- m ; k" := (bind m (fun x => k))
  (at level 10, x name, m at level 100, k at level 200).

(** [a + b] on [int]. *)
Definition int_add (a b : Z) : outcome Z :=
  let s := a + b in
  if (INT_MIN <=? s) && (s <=? INT_MAX) then Done s else UB.

(** [a % b] on [int]: the remainder of the division truncated towards zero. *)
Definition int_rem (a b : Z) : outcome Z :=
  if b =? 0 then UB
  else if (a =? INT_MIN) && (b =? -1) then UB
  else Done (Z.rem a b).

(** [a[i]] read from an array of [void *]. *)
Definition load (a : option (list ptr)) (i : Z) : outcome ptr :=
  match a with
  | None => UB
  | Some l =>
      if 0 <=? i then
        match l !! Z.to_nat i with
        | Some v => Done v
        | None => UB
        end
      else UB
  end.

(** [a[i] = v] written to an array of [void *]. *)
Definition store (a : option (list ptr)) (i : Z) (v : ptr)
  : outcome (list ptr) :=
  match a with
  | None => UB
  | Some l =>
      if (0 <=? i) && (i <? Z.of_nat (length l))
      then Done (<[Z.to_nat i := v]> l)
      else UB
  end.

(** [if (moves) i = ((i + 1) % m);], the cursor step that the C text repeats
    for [head], [tail] and the peek index; the value is the new [i]. *)
Definition advance (moves : bool) (i m : Z) : outcome Z :=
  if moves then (do s <- int_add i 1; int_rem s m) else Done i.

(** ** The buffer object *)

Record circular_buffer : Type := mk_cb {
  buffer : option (list ptr);   (* void **buffer, None when NULL *)
  head : Z;
  tail : Z;
  len : Z;
  maxlen : Z
}.

(** What a call leaves behind. *)
Record result : Type := mk_result {
  r_buf : option circular_buffer;   (* the object behind c_buf *)
  r_data : option (list ptr);       (* the array behind data / data_buf *)
  r_ret : Z;                        (* the value returned *)
  r_errno : option errno_t          (* the value assigned to errno, if any *)
}.

(** ** circular_buffer_init *)

(** [(size_t) n] for an [int] n. *)
Definition to_size_t (n : Z) : Z := n mod SIZE_MOD.

(** [a * b] on [size_t]. *)
Definition size_mul (a b : Z) : Z := (a * b) mod SIZE_MOD.

(** The allocator is an input of the model: [malloc n] is the fresh block
    handed out for a request of [n] bytes, seen as an array of [void *] with
    indeterminate contents, or [None] when the request fails. *)
Definition allocator : Type := Z -> option (list ptr).

(** A block of [n] bytes holds [n / sizeof_ptr] elements, and no object is
    larger than [PTRDIFF_MAX] bytes. *)
Definition malloc_sane (malloc : allocator) : Prop :=
  forall n blk, malloc n = Some blk ->
    n <= PTRDIFF_MAX /\ sizeof_ptr * Z.of_nat (length blk) = n.

Definition circular_buffer_init (malloc : allocator)
    (c_buf : option circular_buffer) (max_len : Z) : result :=
  match c_buf with
  | None => mk_result None None (-1) (Some EINVAL)
  | Some c =>
      match malloc (size_mul sizeof_ptr (to_size_t max_len)) with
      | None =>
          mk_result (Some (mk_cb None (head c) (tail c) (len c) (maxlen c)))
                    None (-1) (Some ENOMEM)
      | Some blk =>
          mk_result (Some (mk_cb (Some blk) 0 0 0 max_len)) None 0 None
      end
  end.

(** ** circular_buffer_deinit *)

(** The second component is the block handed to [free], if any: the call
    frees [c_buf->buffer] when it is not null. *)
Definition circular_buffer_deinit (c_buf : option circular_buffer)
  : result * option (list ptr) :=
  match c_buf with
  | None => (mk_result None None (-1) (Some EINVAL), None)
  | Some c => (mk_result (Some (mk_cb None 0 0 0 0)) None 0 None, buffer c)
  end.

(** ** circular_buffer_is_empty, circular_buffer_is_full *)

Definition circular_buffer_is_empty (c_buf : option circular_buffer)
  : Z * option errno_t :=
  match c_buf with
  | None => (-1, Some EINVAL)
  | Some c => if len c =? 0 then (1, None) else (0, None)
  end.

Definition circular_buffer_is_full (c_buf : option circular_buffer)
  : Z * option errno_t :=
  match c_buf with
  | None => (-1, Some EINVAL)
  | Some c => if len c =? maxlen c then (1, None) else (0, None)
  end.

(** ** circular_buffer_push *)

Definition circular_buffer_push (c_buf : option circular_buffer) (data : ptr)
  : outcome result :=
  match c_buf with
  | None => Done (mk_result None None (-1) (Some EINVAL))
  | Some c =>
      if fst (circular_buffer_is_full c_buf) =? 1
      then Done (mk_result c_buf None (-1) None)
      else
        do h <- advance (0 <? len c) (head c) (maxlen c);
        do b <- store (buffer c) h data;
        do l <- int_add (len c) 1;
        Done (mk_result (Some (mk_cb (Some b) h (tail c) l (maxlen c)))
                        None 0 None)
  end.

(** ** circular_buffer_pop *)

(** [data] points to the caller's slot, the one-element array [[*data]]. *)
Definition circular_buffer_pop (c_buf : option circular_buffer)
    (data : option (list ptr)) : outcome result :=
  match c_buf with
  | None => Done (mk_result None data (-1) (Some EINVAL))
  | Some c =>
      match data with
      | None => Done (mk_result c_buf None (-1) (Some EINVAL))
      | Some _ =>
          if fst (circular_buffer_is_empty c_buf) =? 1
          then Done (mk_result c_buf data (-1) (Some EINVAL))
          else
            do v <- load (buffer c) (tail c);
            do d <- store data 0 v;
            do t <- advance (1 <? len c) (tail c) (maxlen c);
            do l <- int_add (len c) (-1);
            Done (mk_result (Some (mk_cb (buffer c) (head c) t l (maxlen c)))
                            (Some d) 0 None)
      end
  end.

(** ** circular_buffer_empty *)

Definition circular_buffer_empty (c_buf : option circular_buffer)
  : outcome result :=
  match c_buf with
  | None => Done (mk_result None None (-1) (Some EINVAL))
  | Some c =>
      Done (mk_result (Some (mk_cb (buffer c) 0 0 0 (maxlen c))) None 0 None)
  end.

(** ** memset(data_buf, 0, n) *)

(** The element [p] with its first [k] bytes in memory, the low-order ones,
    set to zero. *)
Definition clear_low_bytes (k : Z) (p : ptr) : ptr :=
  Z.shiftl (Z.shiftr p (8 * k)) (8 * k).

(** The array [d] with its first [n] bytes set to zero. *)
Fixpoint zero_bytes (d : list ptr) (n : Z) : list ptr :=
  match d with
  | [] => []
  | p :: d' =>
      if n <=? 0 then d
      else if sizeof_ptr <=? n then NULL :: zero_bytes d' (n - sizeof_ptr)
      else clear_low_bytes n p :: d'
  end.

Definition memset_zero (d : list ptr) (n : Z) : outcome (list ptr) :=
  if n <=? sizeof_ptr * Z.of_nat (length d) then Done (zero_bytes d n) else UB.

(** ** circular_buffer_get_data *)

(** The [while] loop; [dlen] is the C parameter [len]. *)
Fixpoint get_data_loop (fuel : nat) (c : circular_buffer) (d : list ptr)
    (dlen offset count : Z) : outcome (circular_buffer * list ptr * Z) :=
  if 0 <? len c then
    do s <- int_add count offset;
    if s <? dlen then
      match fuel with
      | O => OutOfFuel
      | S fuel' =>
          do v <- load (buffer c) (tail c);
          do i <- int_add offset count;
          do d' <- store (Some d) i v;
          do count' <- int_add count 1;
          do t <- advance (1 <? len c) (tail c) (maxlen c);
          do l <- int_add (len c) (-1);
          get_data_loop fuel' (mk_cb (buffer c) (head c) t l (maxlen c))
                        d' dlen offset count'
      end
    else Done (c, d, count)
  else Done (c, d, count).

Definition circular_buffer_get_data (c_buf : option circular_buffer)
    (data_buf : option (list ptr)) (dlen offset : Z) : outcome result :=
  match c_buf with
  | None => Done (mk_result None data_buf (-1) (Some EINVAL))
  | Some c =>
      match data_buf with
      | None => Done (mk_result c_buf None (-1) (Some EINVAL))
      | Some d =>
          if dlen <=? 0
          then Done (mk_result c_buf data_buf (-1) (Some EINVAL))
          else
            do d0 <- memset_zero d (to_size_t dlen);
            do r <- get_data_loop (Z.to_nat (len c)) c d0 dlen offset 0;
            Done (mk_result (Some r.1.1) (Some r.1.2) r.2 None)
      end
  end.

(** ** circular_buffer_set_data *)

Fixpoint set_data_loop (fuel : nat) (c : circular_buffer) (d : list ptr)
    (dlen offset count : Z) : outcome (circular_buffer * Z) :=
  if len c <? maxlen c then
    do s <- int_add count offset;
    if s <? dlen then
      match fuel with
      | O => OutOfFuel
      | S fuel' =>
          do h <- advance (0 <? len c) (head c) (maxlen c);
          do i <- int_add offset count;
          do v <- load (Some d) i;
          do count' <- int_add count 1;
          do b <- store (buffer c) h v;
          do l <- int_add (len c) 1;
          set_data_loop fuel' (mk_cb (Some b) h (tail c) l (maxlen c))
                        d dlen offset count'
      end
    else Done (c, count)
  else Done (c, count).

Definition circular_buffer_set_data (c_buf : option circular_buffer)
    (data_buf : option (list ptr)) (dlen offset : Z) : outcome result :=
  match c_buf with
  | None => Done (mk_result None data_buf (-1) (Some EINVAL))
  | Some c =>
      match data_buf with
      | None => Done (mk_result c_buf None (-1) (Some EINVAL))
      | Some d =>
          if dlen <? 0
          then Done (mk_result c_buf data_buf (-1) (Some EINVAL))
          else
            do r <- set_data_loop (Z.to_nat (maxlen c - len c)) c d
                                  dlen offset 0;
            Done (mk_result (Some r.1) data_buf r.2 None)
      end
  end.

(** ** circular_buffer_peek *)

Fixpoint peek_loop (fuel : nat) (c : circular_buffer) (d : list ptr)
    (dlen offset count i : Z) : outcome (list ptr * Z) :=
  if count <? len c then
    do s <- int_add count offset;
    if s <? dlen then
      match fuel with
      | O => OutOfFuel
      | S fuel' =>
          do v <- load (buffer c) i;
          do j <- int_add offset count;
          do d' <- store (Some d) j v;
          do count' <- int_add count 1;
          do i' <- advance (1 <? len c) i (maxlen c);
          peek_loop fuel' c d' dlen offset count' i'
      end
    else Done (d, count)
  else Done (d, count).

Definition circular_buffer_peek (c_buf : option circular_buffer)
    (data_buf : option (list ptr)) (dlen offset offset_cb : Z)
  : outcome result :=
  match c_buf with
  | None => Done (mk_result None data_buf (-1) (Some EINVAL))
  | Some c =>
      match data_buf with
      | None => Done (mk_result c_buf None (-1) (Some EINVAL))
      | Some d =>
          if dlen <=? 0
          then Done (mk_result c_buf data_buf (-1) (Some EINVAL))
          else
            do d0 <- memset_zero d (to_size_t dlen);
            do t <- int_add (tail c) offset;
            do i <- int_rem t (maxlen c);
            do r <- peek_loop (Z.to_nat (len c - offset)) c d0
                              dlen offset offset i;
            Done (mk_result c_buf (Some r.1) r.2 None)
      end
  end.

(** ** Initialized buffers *)

(** The state of a buffer between a successful [circular_buffer_init] and
    [circular_buffer_deinit]: the block has [maxlen] elements, [len] is at
    most [maxlen], [tail] is an index of the block and [head] is [len - 1]
    places after it.  A buffer made with [max_len = 0] has an empty block and
    both cursors at 0. *)
Record initialized (c : circular_buffer) : Prop := mk_initialized {
  init_store : exists st, buffer c = Some st /\ Z.of_nat (length st) = maxlen c;
  init_cap : 0 <= maxlen c <= INT_MAX;
  init_len : 0 <= len c <= maxlen c;
  init_tail : 0 <= tail c < Z.max 1 (maxlen c);
  init_head : head c = if len c =? 0 then tail c
                       else (tail c + len c - 1) mod maxlen c
}.

(** The state after a push that is not rejected. *)
Definition next_head (c : circular_buffer) : Z :=
  if 0 <? len c then (head c + 1) mod maxlen c else head c.

Definition after_push (c : circular_buffer) (x : ptr) : circular_buffer :=
  mk_cb (option_map (fun st => <[Z.to_nat (next_head c) := x]> st) (buffer c))
        (next_head c) (tail c) (len c + 1) (maxlen c).

(** The state after a pop that is not rejected. *)
Definition next_tail (c : circular_buffer) : Z :=
  if 1 <? len c then (tail c + 1) mod maxlen c else tail c.

Definition after_pop (c : circular_buffer) : circular_buffer :=
  mk_cb (buffer c) (head c) (next_tail c) (len c - 1) (maxlen c).

(** The oldest element, [buffer[tail]]. *)
Definition front (c : circular_buffer) : ptr :=
  match buffer c with
  | Some st => default NULL (st !! Z.to_nat (tail c))
  | None => NULL
  end.


(** ** The queue a buffer stands for *)

(** The element [k] places after the oldest one,
    [buffer[(tail + k) % maxlen]]. *)
Definition slot (c : circular_buffer) (k : nat) : ptr :=
  match buffer c with
  | Some st =>
      default NULL (st !! Z.to_nat ((tail c + Z.of_nat k) mod maxlen c))
  | None => NULL
  end.

(** The [len] elements held, oldest first. *)
Definition contents (c : circular_buffer) : list ptr :=
  map (slot c) (seq 0 (Z.to_nat (len c))).

(** ** Sequences of pushes and pops *)

Inductive op : Type :=
| Push (x : ptr)
| Pop.

(** The object behind [c_buf] after a call on the object [c]. *)
Definition object (c : circular_buffer) (r : result) : circular_buffer :=
  default c (r_buf r).

(** The value left in the caller's slot [*data]. *)
Definition slot_value (r : result) : ptr :=
  match r_data r with
  | Some (v :: _) => v
  | _ => NULL
  end.

(** Runs the calls of [ops] one after the other on the object [c].  The
    value is the list of the elements of the pushes that returned 0, the list
    of the elements handed out by the pops that returned 0, both in call
    order, and the final object. *)
Fixpoint run (ops : list op) (c : circular_buffer)
  : outcome (list ptr * list ptr * circular_buffer) :=
  match ops with
  | [] => Done ([], [], c)
  | Push x :: ops' =>
      do r <- circular_buffer_push (Some c) x;
      do t <- run ops' (object c r);
      Done (if r_ret r =? 0 then x :: t.1.1 else t.1.1, t.1.2, t.2)
  | Pop :: ops' =>
      do r <- circular_buffer_pop (Some c) (Some [NULL]);
      do t <- run ops' (object c r);
      Done (t.1.1, if r_ret r =? 0 then slot_value r :: t.1.2 else t.1.2, t.2)
  end.

(** ** Calls on a live buffer *)

(** A call of the library on a non-null [c_buf], with its other arguments. *)
Inductive call : Type :=
| Call_push (data : ptr)
| Call_pop (data : option (list ptr))
| Call_empty
| Call_get_data (data_buf : option (list ptr)) (dlen offset : Z)
| Call_set_data (data_buf : option (list ptr)) (dlen offset : Z)
| Call_peek (data_buf : option (list ptr)) (dlen offset offset_cb : Z)
| Call_is_empty
| Call_is_full.

Definition exec (k : call) (c : circular_buffer) : outcome result :=
  match k with
  | Call_push data => circular_buffer_push (Some c) data
  | Call_pop data => circular_buffer_pop (Some c) data
  | Call_empty => circular_buffer_empty (Some c)
  | Call_get_data data_buf dlen offset =>
      circular_buffer_get_data (Some c) data_buf dlen offset
  | Call_set_data data_buf dlen offset =>
      circular_buffer_set_data (Some c) data_buf dlen offset
  | Call_peek data_buf dlen offset offset_cb =>
      circular_buffer_peek (Some c) data_buf dlen offset offset_cb
  | Call_is_empty =>
      let q := circular_buffer_is_empty (Some c) in
      Done (mk_result (Some c) None q.1 q.2)
  | Call_is_full =>
      let q := circular_buffer_is_full (Some c) in
      Done (mk_result (Some c) None q.1 q.2)
  end.

(** The objects a program can get to: [circular_buffer_init] returned 0 on
    some object, for an [int] capacity, and then calls were made that
    returned. *)
Inductive reachable : circular_buffer -> Prop :=
| reach_init (malloc : allocator) (c0 c : circular_buffer) (max_len : Z) :
    malloc_sane malloc -> INT_MIN <= max_len <= INT_MAX ->
    circular_buffer_init malloc (Some c0) max_len
    = mk_result (Some c) None 0 None ->
    reachable c
| reach_call (k : call) (c c' : circular_buffer) (r : result) :
    reachable c -> exec k c = Done r -> r_buf r = Some c' ->
    reachable c'.

(** ** Bulk transfers said with single calls *)

(** Pushes the elements of [xs] one call after the other, as long as the
    calls return 0; [count] counts them. *)
Fixpoint repeated_push (xs : list ptr) (c : circular_buffer) (count : Z)
  : outcome (circular_buffer * Z) :=
  match xs with
  | [] => Done (c, count)
  | x :: xs' =>
      do r <- circular_buffer_push (Some c) x;
      if r_ret r =? 0 then repeated_push xs' (object c r) (count + 1)
      else Done (c, count)
  end.

(** The part [a[offset]], ..., [a[n - 1]] of an array. *)
Definition window (a : list ptr) (n offset : Z) : list ptr :=
  take (Z.to_nat (n - offset)) (drop (Z.to_nat offset) a).

(** The object after [n] pops that are not rejected. *)
Fixpoint after_pops (n : nat) (c : circular_buffer) : circular_buffer :=
  match n with
  | O => c
  | S n' => after_pops n' (after_pop c)
  end.

(** ** Objects for the examples *)

(** An allocator that grants requests of up to 4096 bytes, the empty one
    included, with a zeroed block. *)
Definition demo_malloc : allocator :=
  fun n =>
    if (0 <=? n) && (n <=? 4096) && (n mod sizeof_ptr =? 0)
    then Some (repeat NULL (Z.to_nat (n / sizeof_ptr)))
    else None.

(** An object that has not been through [circular_buffer_init] yet. *)
Definition demo_object : circular_buffer := mk_cb None 7 7 7 7.

(** The object after [circular_buffer_init(&demo_object, 3)]. *)
Definition demo_fresh : circular_buffer :=
  mk_cb (Some [NULL; NULL; NULL]) 0 0 0 3.

(** A buffer of capacity 4 after the pushes of 11, 12 and 13. *)
Definition demo_held : circular_buffer :=
  mk_cb (Some [11; 12; 13; NULL]) 2 0 3 4.

(** The buffer [demo_fresh] after the pushes of 11, 12 and 13, a pop and
    the push of 14: full, with [head] wrapped around to slot 0. *)
Definition demo_wrapped : circular_buffer :=
  mk_cb (Some [14; 12; 13]) 0 1 3 3.

(** * Properties *)

(** ** The primitives *)

Lemma bind_done {A B : Type} (m : outcome A) (k : A -> outcome B) (b : B) :
  bind m k = Done b -> exists a, m = Done a /\ k a = Done b.
Proof. destruct m; simpl; intros H; try discriminate. eauto. Qed.

Lemma int_add_ok (a b : Z) :
  INT_MIN <= a + b <= INT_MAX -> int_add a b = Done (a + b).
Proof.
  intros H. unfold int_add; cbv zeta.
  replace (INT_MIN <=? a + b) with true by (symmetry; apply Z.leb_le; lia).
  replace (a + b <=? INT_MAX) with true by (symmetry; apply Z.leb_le; lia).
  reflexivity.
Qed.

Lemma int_add_done (a b s : Z) : int_add a b = Done s -> s = a + b.
Proof.
  unfold int_add; cbv zeta.
  destruct ((INT_MIN <=? a + b) && (a + b <=? INT_MAX)); congruence.
Qed.

Lemma int_rem_ok (a b : Z) :
  0 <= a -> 0 < b -> int_rem a b = Done (a mod b).
Proof.
  intros Ha Hb. unfold int_rem.
  destruct (Z.eqb_spec b 0); [lia|].
  destruct (Z.eqb_spec a INT_MIN); [unfold INT_MIN in *; lia|].
  simpl. now rewrite Z.rem_mod_nonneg by lia.
Qed.

Lemma advance_stay (i m : Z) : advance false i m = Done i.
Proof. reflexivity. Qed.

Lemma advance_move (i m : Z) :
  0 <= i < m -> m <= INT_MAX -> advance true i m = Done ((i + 1) mod m).
Proof.
  intros Hi Hm. unfold advance.
  rewrite int_add_ok by (unfold INT_MIN; lia). simpl.
  apply int_rem_ok; lia.
Qed.

Lemma load_ok (l : list ptr) (i : Z) (v : ptr) :
  0 <= i -> l !! Z.to_nat i = Some v -> load (Some l) i = Done v.
Proof.
  intros Hi Hl. unfold load.
  destruct (Z.leb_spec 0 i); [|lia]. now rewrite Hl.
Qed.

Lemma store_ok (l : list ptr) (i : Z) (v : ptr) :
  0 <= i < Z.of_nat (length l) ->
  store (Some l) i v = Done (<[Z.to_nat i := v]> l).
Proof.
  intros Hi. unfold store.
  destruct (Z.leb_spec 0 i); [|lia].
  destruct (Z.ltb_spec i (Z.of_nat (length l))); [|lia]. reflexivity.
Qed.

Lemma lookup_in_range (l : list ptr) (i : Z) :
  0 <= i < Z.of_nat (length l) -> exists v, l !! Z.to_nat i = Some v.
Proof.
  intros Hi. destruct (l !! Z.to_nat i) as [v|] eqn:E; [eauto|].
  apply lookup_ge_None in E. lia.
Qed.

Lemma initialized_head_range (c : circular_buffer) :
  initialized c -> 0 <= head c < Z.max 1 (maxlen c).
Proof.
  intros [_ Hc Hl Ht Hh]. rewrite Hh.
  destruct (Z.eqb_spec (len c) 0); [lia|].
  assert (0 <= (tail c + len c - 1) mod maxlen c < maxlen c)
    by (apply Z.mod_pos_bound; lia).
  lia.
Qed.

Lemma next_head_range (c : circular_buffer) :
  initialized c -> len c < maxlen c -> 0 <= next_head c < maxlen c.
Proof.
  intros Hi Hlt. pose proof (initialized_head_range c Hi) as Hh.
  destruct Hi as [_ Hc Hl Ht _]. unfold next_head.
  destruct (Z.ltb_spec 0 (len c)); [apply Z.mod_pos_bound|]; lia.
Qed.

Lemma next_head_eq (c : circular_buffer) :
  initialized c -> len c < maxlen c ->
  next_head c = (tail c + len c) mod maxlen c.
Proof.
  intros [_ Hc Hl Ht Hh] Hlt. unfold next_head. rewrite Hh.
  destruct (Z.ltb_spec 0 (len c)).
  - destruct (Z.eqb_spec (len c) 0); [lia|].
    rewrite Zplus_mod_idemp_l. f_equal. lia.
  - destruct (Z.eqb_spec (len c) 0); [|lia].
    rewrite Z.mod_small by lia. lia.
Qed.

Lemma next_tail_range (c : circular_buffer) :
  initialized c -> 0 < len c -> 0 <= next_tail c < maxlen c.
Proof.
  intros [_ Hc Hl Ht _] Hlt. unfold next_tail.
  destruct (Z.ltb_spec 1 (len c)); [apply Z.mod_pos_bound|]; lia.
Qed.

Lemma push_full (c : circular_buffer) (x : ptr) :
  len c = maxlen c ->
  circular_buffer_push (Some c) x = Done (mk_result (Some c) None (-1) None).
Proof.
  intros E. unfold circular_buffer_push, circular_buffer_is_full.
  rewrite E, Z.eqb_refl. reflexivity.
Qed.

Lemma push_ok (c : circular_buffer) (x : ptr) :
  initialized c -> len c <> maxlen c ->
  circular_buffer_push (Some c) x
  = Done (mk_result (Some (after_push c x)) None 0 None).
Proof.
  intros Hi Hne.
  assert (Hlt : len c < maxlen c) by (destruct Hi; lia).
  pose proof (next_head_range c Hi Hlt) as Hnh.
  pose proof (initialized_head_range c Hi) as Hh.
  destruct Hi as [(st & Hst & Hlen) Hc Hl Ht _].
  unfold circular_buffer_push, circular_buffer_is_full, after_push.
  destruct (Z.eqb_spec (len c) (maxlen c)); [lia|]. cbn [fst Z.eqb].
  assert (Ha : advance (0 <? len c) (head c) (maxlen c) = Done (next_head c)).
  { unfold next_head. destruct (Z.ltb_spec 0 (len c)).
    - apply advance_move; lia.
    - reflexivity. }
  rewrite Ha, Hst. cbn [bind option_map].
  rewrite store_ok by lia. cbn [bind].
  rewrite int_add_ok by (unfold INT_MIN; lia). reflexivity.
Qed.

Lemma after_push_initialized (c : circular_buffer) (x : ptr) :
  initialized c -> len c < maxlen c -> initialized (after_push c x).
Proof.
  intros Hi Hlt.
  pose proof (next_head_eq c Hi Hlt) as Hnh.
  destruct Hi as [(st & Hst & Hlen) Hc Hl Ht Hh].
  constructor; simpl; try lia.
  - rewrite Hst. simpl. eexists. split; [reflexivity|].
    now rewrite length_insert.
  - rewrite Hnh. destruct (Z.eqb_spec (len c + 1) 0); [lia|].
    f_equal. lia.
Qed.

Lemma pop_empty (c : circular_buffer) (d : list ptr) :
  len c = 0 ->
  circular_buffer_pop (Some c) (Some d)
  = Done (mk_result (Some c) (Some d) (-1) (Some EINVAL)).
Proof.
  intros E. unfold circular_buffer_pop, circular_buffer_is_empty.
  rewrite E. reflexivity.
Qed.

Lemma pop_ok (c : circular_buffer) (d : list ptr) :
  initialized c -> len c <> 0 -> d <> [] ->
  circular_buffer_pop (Some c) (Some d)
  = Done (mk_result (Some (after_pop c)) (Some (<[0%nat := front c]> d))
                    0 None).
Proof.
  intros Hi Hne Hd.
  assert (Hlt : 0 < len c) by (destruct Hi; lia).
  pose proof (next_tail_range c Hi Hlt) as Hnt.
  destruct Hi as [(st & Hst & Hlen) Hc Hl Ht _].
  unfold circular_buffer_pop, circular_buffer_is_empty, after_pop, front.
  destruct (Z.eqb_spec (len c) 0); [lia|]. cbn [fst Z.eqb].
  rewrite Hst.
  destruct (lookup_in_range st (tail c)) as [v Hv]; [lia|].
  rewrite (load_ok st (tail c) v) by (lia || assumption). cbn [bind].
  rewrite store_ok by (destruct d; simpl in *; [congruence|lia]). cbn [bind].
  assert (Ha : advance (1 <? len c) (tail c) (maxlen c) = Done (next_tail c)).
  { unfold next_tail. destruct (Z.ltb_spec 1 (len c)).
    - apply advance_move; lia.
    - reflexivity. }
  rewrite Ha. cbn [bind].
  rewrite int_add_ok by (unfold INT_MIN; lia). cbn [bind].
  rewrite Hv. simpl. repeat f_equal; lia.
Qed.

Lemma after_pop_initialized (c : circular_buffer) :
  initialized c -> 0 < len c -> initialized (after_pop c).
Proof.
  intros Hi Hlt.
  pose proof (next_tail_range c Hi Hlt) as Hnt.
  destruct Hi as [(st & Hst & Hlen) Hc Hl Ht Hh].
  constructor; simpl; try lia.
  - eauto.
  - rewrite Hh. unfold next_tail.
    destruct (Z.eqb_spec (len c) 0); [lia|].
    destruct (Z.ltb_spec 1 (len c)).
    + destruct (Z.eqb_spec (len c - 1) 0); [lia|].
      replace ((tail c + 1) mod maxlen c + (len c - 1) - 1)
        with ((tail c + 1) mod maxlen c + (len c - 2)) by lia.
      rewrite Zplus_mod_idemp_l. f_equal. lia.
    + destruct (Z.eqb_spec (len c - 1) 0); [|lia].
      replace (tail c + len c - 1) with (tail c) by lia.
      apply Z.mod_small. lia.
Qed.

(** ** The queue behind the cursors *)

Lemma mod_window_inj (a j k m : Z) :
  0 <= j < k -> k < j + m -> (a + j) mod m <> (a + k) mod m.
Proof.
  intros Hj Hk E.
  assert (H : ((a + k) - (a + j)) mod m = 0).
  { rewrite Zminus_mod, E, Z.sub_diag. apply Z.mod_0_l. lia. }
  replace (a + k - (a + j)) with (k - j) in H by lia.
  rewrite Z.mod_small in H by lia. lia.
Qed.

Lemma contents_length (c : circular_buffer) :
  length (contents c) = Z.to_nat (len c).
Proof. unfold contents. now rewrite length_map, length_seq. Qed.

Lemma contents_after_push (c : circular_buffer) (x : ptr) :
  initialized c -> len c < maxlen c ->
  contents (after_push c x) = contents c ++ [x].
Proof.
  intros Hi Hlt.
  pose proof (next_head_eq c Hi Hlt) as Hnh.
  pose proof (next_head_range c Hi Hlt) as Hr.
  destruct Hi as [(st & Hst & Hlen) Hc Hl Ht _].
  unfold contents. cbn [len after_push].
  replace (Z.to_nat (len c + 1)) with (S (Z.to_nat (len c))) by lia.
  rewrite seq_S, map_app. cbn [map Nat.add]. f_equal.
  - apply map_ext_in. intros k Hk. apply in_seq in Hk.
    unfold slot. cbn [buffer tail maxlen after_push]. rewrite Hst.
    cbn [option_map]. rewrite list_lookup_insert_ne; [reflexivity|].
    rewrite Hnh. intros E. apply Z2Nat.inj in E.
    + symmetry in E. revert E. apply mod_window_inj; lia.
    + apply Z.mod_pos_bound. lia.
    + apply Z.mod_pos_bound. lia.
  - f_equal. unfold slot. cbn [buffer tail maxlen after_push]. rewrite Hst.
    cbn [option_map]. rewrite Z2Nat.id by lia. rewrite <- Hnh.
    rewrite list_lookup_insert_eq by lia. reflexivity.
Qed.

Lemma contents_after_pop (c : circular_buffer) :
  initialized c -> 0 < len c ->
  contents c = front c :: contents (after_pop c).
Proof.
  intros [(st & Hst & Hlen) Hc Hl Ht _] Hlt.
  unfold contents. cbn [len after_pop].
  replace (Z.to_nat (len c)) with (S (Z.to_nat (len c - 1))) by lia.
  cbn [seq map]. f_equal.
  - unfold slot, front. rewrite Hst. cbn [Z.of_nat].
    rewrite Z.add_0_r, Z.mod_small by lia. reflexivity.
  - rewrite <- seq_shift, map_map. apply map_ext_in. intros k Hk.
    apply in_seq in Hk.
    unfold slot. cbn [buffer tail maxlen after_pop]. rewrite Hst.
    do 3 f_equal. unfold next_tail.
    destruct (Z.ltb_spec 1 (len c)); [|lia].
    rewrite Zplus_mod_idemp_l. f_equal. lia.
Qed.

(** ** Runs of pushes and pops *)

Lemma run_push_ok (c : circular_buffer) (x : ptr) (ops : list op) :
  initialized c -> len c <> maxlen c ->
  run (Push x :: ops) c
  = (do t <- run ops (after_push c x); Done (x :: t.1.1, t.1.2, t.2)).
Proof. intros Hi Hne. cbn [run]. now rewrite push_ok. Qed.

Lemma run_push_full (c : circular_buffer) (x : ptr) (ops : list op) :
  len c = maxlen c ->
  run (Push x :: ops) c = (do t <- run ops c; Done (t.1.1, t.1.2, t.2)).
Proof. intros E. cbn [run]. now rewrite push_full. Qed.

Lemma run_pop_ok (c : circular_buffer) (ops : list op) :
  initialized c -> len c <> 0 ->
  run (Pop :: ops) c
  = (do t <- run ops (after_pop c); Done (t.1.1, front c :: t.1.2, t.2)).
Proof. intros Hi Hne. cbn [run]. now rewrite pop_ok. Qed.

Lemma run_pop_empty (c : circular_buffer) (ops : list op) :
  len c = 0 ->
  run (Pop :: ops) c = (do t <- run ops c; Done (t.1.1, t.1.2, t.2)).
Proof. intros E. cbn [run]. now rewrite pop_empty. Qed.

(** Whatever the calls, what was held and what was pushed is what was popped
    and what is still held, in this order. *)
Lemma run_queue (ops : list op) :
  forall c, initialized c ->
  exists pu po c',
    run ops c = Done (pu, po, c') /\ initialized c' /\
    maxlen c' = maxlen c /\ contents c ++ pu = po ++ contents c'.
Proof.
  induction ops as [|[x|] ops IH]; intros c Hi.
  - exists [], [], c. cbn [run]. now rewrite app_nil_r.
  - destruct (Z.eq_dec (len c) (maxlen c)) as [E|Hne].
    + destruct (IH c Hi) as (pu & po & c' & Hr & Hi' & Hm & Hq).
      exists pu, po, c'. rewrite run_push_full, Hr by assumption. auto.
    + assert (Hlt : len c < maxlen c) by (destruct Hi; lia).
      destruct (IH _ (after_push_initialized c x Hi Hlt))
        as (pu & po & c' & Hr & Hi' & Hm & Hq).
      exists (x :: pu), po, c'. rewrite run_push_ok, Hr by assumption.
      split_and!; try assumption; try reflexivity.
      rewrite contents_after_push in Hq by assumption.
      rewrite <- app_assoc in Hq. exact Hq.
  - destruct (Z.eq_dec (len c) 0) as [E|Hne].
    + destruct (IH c Hi) as (pu & po & c' & Hr & Hi' & Hm & Hq).
      exists pu, po, c'. rewrite run_pop_empty, Hr by assumption. auto.
    + assert (Hlt : 0 < len c) by (destruct Hi; lia).
      destruct (IH _ (after_pop_initialized c Hi Hlt))
        as (pu & po & c' & Hr & Hi' & Hm & Hq).
      exists pu, (front c :: po), c'. rewrite run_pop_ok, Hr by assumption.
      split_and!; try assumption; try reflexivity.
      rewrite (contents_after_pop c) by assumption.
      cbn [app]. now rewrite Hq.
Qed.

Lemma run_app (a b : list op) :
  forall c,
  run (a ++ b) c
  = (do t <- run a c;
     do u <- run b t.2;
     Done (t.1.1 ++ u.1.1, t.1.2 ++ u.1.2, u.2)).
Proof.
  induction a as [|[x|] a IH]; intros c.
  - cbn [app run bind fst snd].
    destruct (run b c) as [[[pu po] c']| |]; reflexivity.
  - cbn [app run]. destruct (circular_buffer_push (Some c) x) as [r| |];
      cbn [bind]; try reflexivity.
    rewrite IH. destruct (run a (object c r)) as [[[pu po] c1]| |];
      cbn [bind fst snd]; try reflexivity.
    destruct (run b c1) as [[[pu' po'] c2]| |];
      cbn [bind fst snd]; try reflexivity.
    destruct (r_ret r =? 0); reflexivity.
  - cbn [app run]. destruct (circular_buffer_pop (Some c) (Some [NULL]))
      as [r| |]; cbn [bind]; try reflexivity.
    rewrite IH. destruct (run a (object c r)) as [[[pu po] c1]| |];
      cbn [bind fst snd]; try reflexivity.
    destruct (run b c1) as [[[pu' po'] c2]| |];
      cbn [bind fst snd]; try reflexivity.
    destruct (r_ret r =? 0); reflexivity.
Qed.

Lemma run_pushes (xs : list ptr) :
  forall c, initialized c -> len c + Z.of_nat (length xs) <= maxlen c ->
  exists c',
    run (map Push xs) c = Done (xs, [], c') /\ initialized c' /\
    contents c' = contents c ++ xs /\ maxlen c' = maxlen c.
Proof.
  induction xs as [|x xs IH]; intros c Hi Hroom.
  - exists c. cbn [map run]. rewrite app_nil_r. auto.
  - cbn [length] in Hroom.
    assert (Hlt : len c < maxlen c) by lia.
    destruct (IH (after_push c x)) as (c' & Hr & Hi' & Hq & Hm).
    + now apply after_push_initialized.
    + cbn [len maxlen after_push]. lia.
    + exists c'. cbn [map]. rewrite run_push_ok, Hr by (assumption || lia).
      split_and!; try assumption; try reflexivity.
      rewrite Hq, contents_after_push by assumption.
      rewrite <- app_assoc. reflexivity.
Qed.

Lemma run_pops (n : nat) :
  forall c, initialized c -> Z.to_nat (len c) = n ->
  exists c',
    run (repeat Pop n) c = Done ([], contents c, c') /\ initialized c' /\
    len c' = 0.
Proof.
  induction n as [|n IH]; intros c Hi Hn.
  - exists c. cbn [repeat run]. unfold contents. rewrite Hn.
    split_and!; try assumption; try reflexivity. destruct Hi; lia.
  - assert (Hlt : 0 < len c) by lia.
    destruct (IH (after_pop c)) as (c' & Hr & Hi' & Hl).
    + now apply after_pop_initialized.
    + cbn [len maxlen after_pop]. lia.
    + exists c'. cbn [repeat]. rewrite run_pop_ok, Hr by (assumption || lia).
      rewrite (contents_after_pop c) by assumption. auto.
Qed.

(** ** Initialisation *)

Lemma init_request (max_len : Z) :
  INT_MIN <= max_len <= INT_MAX ->
  size_mul sizeof_ptr (to_size_t max_len)
  = if 0 <=? max_len then 8 * max_len else SIZE_MOD + 8 * max_len.
Proof.
  unfold INT_MIN, INT_MAX, size_mul, to_size_t, sizeof_ptr. intros H.
  rewrite Zmult_mod_idemp_r.
  destruct (Z.leb_spec 0 max_len).
  - apply Z.mod_small. unfold SIZE_MOD. lia.
  - replace (8 * max_len) with (SIZE_MOD + 8 * max_len + (-1) * SIZE_MOD)
      at 1 by lia.
    rewrite Z_mod_plus_full. apply Z.mod_small. unfold SIZE_MOD. lia.
Qed.

(** A request made for a negative [max_len] is too large to be granted. *)
Lemma init_block (malloc : allocator) (max_len : Z) (blk : list ptr) :
  malloc_sane malloc -> INT_MIN <= max_len <= INT_MAX ->
  malloc (size_mul sizeof_ptr (to_size_t max_len)) = Some blk ->
  Z.of_nat (length blk) = max_len.
Proof.
  intros Hs Hr Hm. apply Hs in Hm. rewrite init_request in Hm by assumption.
  unfold INT_MIN, INT_MAX, PTRDIFF_MAX, SIZE_MOD, sizeof_ptr in *.
  destruct (Z.leb_spec 0 max_len); lia.
Qed.

Lemma init_success (malloc : allocator) (c0 c : circular_buffer)
    (max_len : Z) :
  malloc_sane malloc -> INT_MIN <= max_len <= INT_MAX ->
  circular_buffer_init malloc (Some c0) max_len
  = mk_result (Some c) None 0 None ->
  initialized c /\ len c = 0 /\ maxlen c = max_len /\ contents c = [].
Proof.
  intros Hs Hr. unfold circular_buffer_init.
  destruct (malloc _) as [blk|] eqn:Hm; [|discriminate].
  intros E. injection E as <-.
  pose proof (init_block malloc max_len blk Hs Hr Hm) as Hlen.
  split_and!; try reflexivity.
  constructor; cbn; unfold INT_MAX in *; try lia; eauto.
Qed.

(** ** Oldest first *)

(** C1.  On a buffer that [circular_buffer_init] has just made with a
    capacity of at least 1, every sequence of pushes and pops runs to its end,
    and the k-th pop that returns 0 hands out the element of the k-th push
    that returned 0.  In particular, N pushes into a fresh buffer of capacity
    N followed by N pops all return 0, the pops hand out the elements in the
    order they were pushed, and [circular_buffer_is_empty] then returns 1. *)
Theorem fifo_order (malloc : allocator) (c0 c : circular_buffer) (N : Z) :
  malloc_sane malloc -> 1 <= N <= INT_MAX ->
  circular_buffer_init malloc (Some c0) N = mk_result (Some c) None 0 None ->
  (forall ops : list op, exists pu po c',
      run ops c = Done (pu, po, c') /\
      forall (k : nat) (x : ptr), po !! k = Some x -> pu !! k = Some x) /\
  (forall xs : list ptr, Z.of_nat (length xs) = N -> exists c',
      run (map Push xs ++ repeat Pop (length xs)) c = Done (xs, xs, c') /\
      circular_buffer_is_empty (Some c') = (1, None)).
Proof.
  intros Hs HN Hinit.
  destruct (init_success malloc c0 c N Hs) as (Hi & Hl & Hm & Hc);
    [unfold INT_MIN; lia|assumption|].
  split.
  - intros ops. destruct (run_queue ops c Hi) as (pu & po & c' & Hr & _ & _ & Hq).
    exists pu, po, c'. split; [assumption|].
    rewrite Hc in Hq. cbn [app] in Hq. subst pu.
    intros k x Hk. now apply lookup_app_l_Some.
  - intros xs Hxs.
    destruct (run_pushes xs c Hi) as (c1 & Hr1 & Hi1 & Hq1 & Hm1); [lia|].
    rewrite Hc in Hq1. cbn [app] in Hq1.
    destruct (run_pops (length xs) c1 Hi1) as (c2 & Hr2 & Hi2 & Hl2).
    { rewrite <- contents_length, Hq1. reflexivity. }
    exists c2. rewrite run_app, Hr1. cbn [bind fst snd]. rewrite Hr2.
    cbn [bind fst snd app]. rewrite Hq1, app_nil_r. split; [reflexivity|].
    unfold circular_buffer_is_empty. now rewrite Hl2.
Qed.

(** ** Push and pop, one call *)

Lemma load_store_same (st : list ptr) (i : Z) (x : ptr) :
  0 <= i < Z.of_nat (length st) ->
  load (Some (<[Z.to_nat i := x]> st)) i = Done x.
Proof.
  intros Hi. apply load_ok; [lia|]. apply list_lookup_insert_eq. lia.
Qed.

(** C2.  On an initialized buffer a push returns -1 exactly when
    [len == maxlen], and then leaves the object as it was and [errno] alone.
    Otherwise it returns 0 and: [head] moves to [(head + 1) % maxlen] when
    [len > 0] and stays when [len == 0], the element is stored at
    [buffer[head]] for the new [head], [len] grows by one, [tail] and
    [maxlen] stay; the element read back at the new [head] is the one pushed,
    and it is the newest of the queue.  A buffer fresh from
    [circular_buffer_init] has [head == 0] and [len == 0], so its first push
    writes slot 0. *)
Theorem push_behaviour (c : circular_buffer) (x : ptr) :
  initialized c ->
  exists r,
    circular_buffer_push (Some c) x = Done r /\
    (r_ret r = -1 <-> len c = maxlen c) /\
    (len c = maxlen c -> r_buf r = Some c /\ r_errno r = None) /\
    (len c <> maxlen c ->
       exists st c',
         buffer c = Some st /\ r_buf r = Some c' /\ r_ret r = 0 /\
         head c' = (if 0 <? len c then (head c + 1) mod maxlen c
                    else head c) /\
         buffer c' = Some (<[Z.to_nat (head c') := x]> st) /\
         len c' = len c + 1 /\ tail c' = tail c /\ maxlen c' = maxlen c /\
         load (buffer c') (head c') = Done x /\
         contents c' = contents c ++ [x]) /\
    (forall malloc c0 max_len cf,
       circular_buffer_init malloc (Some c0) max_len
       = mk_result (Some cf) None 0 None ->
       head cf = 0 /\ len cf = 0).
Proof.
  intros Hi.
  assert (Hfresh : forall malloc c0 max_len cf,
             circular_buffer_init malloc (Some c0) max_len
             = mk_result (Some cf) None 0 None -> head cf = 0 /\ len cf = 0).
  { intros malloc c0 max_len cf. unfold circular_buffer_init.
    destruct (malloc _) as [blk|]; [|discriminate].
    intros H. injection H as <-. split; reflexivity. }
  destruct (Z.eq_dec (len c) (maxlen c)) as [E|Hne].
  - eexists. split; [apply push_full; assumption|]. cbn [r_ret r_buf r_errno].
    split_and!; try tauto; exact Hfresh.
  - assert (Hlt : len c < maxlen c) by (destruct Hi; lia).
    eexists. split; [apply push_ok; assumption|]. cbn [r_ret r_buf r_errno].
    split_and!; try (intros; lia); try exact Hfresh.
    intros _. pose proof (next_head_range c Hi Hlt) as Hr.
    pose proof (contents_after_push c x Hi Hlt) as Hq.
    destruct Hi as [(st & Hst & Hlen) Hc Hl Ht _].
    exists st, (after_push c x). unfold after_push in *. rewrite Hst in *.
    cbn [option_map buffer head tail len maxlen].
    split_and!; try reflexivity; try assumption.
    apply load_store_same. lia.
Qed.

(** C3.  On an initialized buffer, with a caller's slot to write to, a pop
    returns -1 exactly when [len == 0], and then leaves the object and the
    slot as they were.  Otherwise it returns 0 and hands out [buffer[tail]],
    the oldest element of the queue; [tail] moves to [(tail + 1) % maxlen]
    when [len > 1] and stays when [len == 1]; [len] shrinks by one; the
    block, [head] and [maxlen] stay. *)
Theorem pop_behaviour (c : circular_buffer) (d : list ptr) :
  initialized c -> d <> [] ->
  exists r,
    circular_buffer_pop (Some c) (Some d) = Done r /\
    (r_ret r = -1 <-> len c = 0) /\
    (len c = 0 ->
       r_buf r = Some c /\ r_data r = Some d /\ r_errno r = Some EINVAL) /\
    (len c <> 0 ->
       exists st v c',
         buffer c = Some st /\ st !! Z.to_nat (tail c) = Some v /\
         r_ret r = 0 /\ r_data r = Some (<[0%nat := v]> d) /\
         r_buf r = Some c' /\
         tail c' = (if 1 <? len c then (tail c + 1) mod maxlen c
                    else tail c) /\
         len c' = len c - 1 /\ buffer c' = buffer c /\ head c' = head c /\
         maxlen c' = maxlen c /\
         contents c = v :: contents c').
Proof.
  intros Hi Hd. destruct (Z.eq_dec (len c) 0) as [E|Hne].
  - eexists. split; [apply pop_empty; assumption|].
    cbn [r_ret r_buf r_data r_errno]. split_and!; tauto.
  - assert (Hlt : 0 < len c) by (destruct Hi; lia).
    eexists. split; [apply pop_ok; assumption|].
    cbn [r_ret r_buf r_data r_errno].
    split_and!; try (intros; lia).
    intros _. pose proof (contents_after_pop c Hi Hlt) as Hq.
    destruct Hi as [(st & Hst & Hlen) Hc Hl Ht _].
    destruct (lookup_in_range st (tail c)) as [v Hv]; [lia|].
    assert (Hf : front c = v) by (unfold front; now rewrite Hst, Hv).
    exists st, v, (after_pop c). rewrite Hf in *.
    split_and!; try reflexivity; assumption.
Qed.

(** ** One turn of the loops *)

Lemma advance_head (c : circular_buffer) :
  initialized c -> len c < maxlen c ->
  advance (0 <? len c) (head c) (maxlen c) = Done (next_head c).
Proof.
  intros Hi Hlt. pose proof (initialized_head_range c Hi) as Hh.
  destruct Hi as [_ Hc Hl _ _]. unfold next_head.
  destruct (Z.ltb_spec 0 (len c)); [apply advance_move; lia|reflexivity].
Qed.

Lemma advance_tail (c : circular_buffer) :
  initialized c -> 0 < len c ->
  advance (1 <? len c) (tail c) (maxlen c) = Done (next_tail c).
Proof.
  intros [_ Hc Hl Ht _] Hlt. unfold next_tail.
  destruct (Z.ltb_spec 1 (len c)); [apply advance_move; lia|reflexivity].
Qed.

Lemma load_front (c : circular_buffer) :
  initialized c -> 0 < len c -> load (buffer c) (tail c) = Done (front c).
Proof.
  intros [(st & Hst & Hlen) Hc Hl Ht _] Hlt. unfold front. rewrite Hst.
  destruct (lookup_in_range st (tail c)) as [v Hv]; [lia|].
  rewrite Hv. apply load_ok; [lia|assumption].
Qed.

Lemma store_next_head (c : circular_buffer) (x : ptr) :
  initialized c -> len c < maxlen c ->
  exists b, store (buffer c) (next_head c) x = Done b /\
            mk_cb (Some b) (next_head c) (tail c) (len c + 1) (maxlen c)
            = after_push c x.
Proof.
  intros Hi Hlt. pose proof (next_head_range c Hi Hlt) as Hr.
  destruct Hi as [(st & Hst & Hlen) _ _ _ _].
  unfold after_push. rewrite Hst. eexists.
  split; [apply store_ok; lia|reflexivity].
Qed.

Lemma get_data_loop_exit (fuel : nat) (c : circular_buffer) (d : list ptr)
    (dlen offset count : Z) :
  len c <= 0 -> get_data_loop fuel c d dlen offset count = Done (c, d, count).
Proof.
  intros H. destruct fuel; cbn [get_data_loop];
    destruct (Z.ltb_spec 0 (len c)); (lia || reflexivity).
Qed.

Lemma get_data_loop_step (fuel : nat) (c : circular_buffer) (d : list ptr)
    (dlen offset count : Z) :
  initialized c -> 0 < len c ->
  get_data_loop (S fuel) c d dlen offset count
  = (do s <- int_add count offset;
     if s <? dlen then
       do i <- int_add offset count;
       do d' <- store (Some d) i (front c);
       do count' <- int_add count 1;
       get_data_loop fuel (after_pop c) d' dlen offset count'
     else Done (c, d, count)).
Proof.
  intros Hi Hlt. cbn [get_data_loop].
  destruct (Z.ltb_spec 0 (len c)); [|lia].
  rewrite load_front, advance_tail by assumption.
  rewrite (int_add_ok (len c) (-1))
    by (destruct Hi; unfold INT_MIN, INT_MAX in *; lia).
  destruct (int_add count offset) as [s| |]; reflexivity.
Qed.

Lemma set_data_loop_exit (fuel : nat) (c : circular_buffer) (d : list ptr)
    (dlen offset count : Z) :
  maxlen c <= len c -> set_data_loop fuel c d dlen offset count = Done (c, count).
Proof.
  intros H. destruct fuel; cbn [set_data_loop];
    destruct (Z.ltb_spec (len c) (maxlen c)); (lia || reflexivity).
Qed.

Lemma set_data_loop_step (fuel : nat) (c : circular_buffer) (d : list ptr)
    (dlen offset count : Z) :
  initialized c -> len c < maxlen c ->
  set_data_loop (S fuel) c d dlen offset count
  = (do s <- int_add count offset;
     if s <? dlen then
       do i <- int_add offset count;
       do v <- load (Some d) i;
       do count' <- int_add count 1;
       set_data_loop fuel (after_push c v) d dlen offset count'
     else Done (c, count)).
Proof.
  intros Hi Hlt. cbn [set_data_loop].
  destruct (Z.ltb_spec (len c) (maxlen c)); [|lia].
  rewrite advance_head by assumption.
  rewrite (int_add_ok (len c) 1)
    by (destruct Hi; unfold INT_MIN, INT_MAX in *; lia).
  destruct (int_add count offset) as [s| |]; cbn [bind]; try reflexivity.
  destruct (s <? dlen); try reflexivity.
  destruct (int_add offset count) as [i| |]; cbn [bind]; try reflexivity.
  destruct (load (Some d) i) as [v| |]; cbn [bind]; try reflexivity.
  destruct (int_add count 1) as [count'| |]; cbn [bind]; try reflexivity.
  destruct (store_next_head c v Hi Hlt) as (b & Hb & Hc).
  rewrite Hb. cbn [bind]. now rewrite Hc.
Qed.

(** A loop that stops at fuel 0 has its condition false. *)
Lemma get_data_loop_O (c : circular_buffer) (d : list ptr)
    (dlen offset count : Z) (r : circular_buffer * list ptr * Z) :
  get_data_loop 0 c d dlen offset count = Done r -> r = (c, d, count).
Proof.
  cbn [get_data_loop]. destruct (0 <? len c); [|congruence].
  destruct (int_add count offset) as [s| |]; cbn [bind]; try discriminate.
  destruct (s <? dlen); congruence.
Qed.

Lemma set_data_loop_O (c : circular_buffer) (d : list ptr)
    (dlen offset count : Z) (r : circular_buffer * Z) :
  set_data_loop 0 c d dlen offset count = Done r -> r = (c, count).
Proof.
  cbn [set_data_loop]. destruct (len c <? maxlen c); [|congruence].
  destruct (int_add count offset) as [s| |]; cbn [bind]; try discriminate.
  destruct (s <? dlen); congruence.
Qed.

(** ** The loops keep a buffer initialized *)

Lemma get_data_loop_initialized (dlen offset : Z) (fuel : nat) :
  forall c d count r,
  initialized c -> get_data_loop fuel c d dlen offset count = Done r ->
  initialized r.1.1.
Proof.
  induction fuel as [|fuel IH]; intros c d count r Hi H.
  - apply get_data_loop_O in H. now subst r.
  - destruct (Z.le_gt_cases (len c) 0) as [Hle|Hlt].
    + rewrite get_data_loop_exit in H by assumption. now injection H as <-.
    + rewrite get_data_loop_step in H by (assumption || lia).
      apply bind_done in H as (s & _ & H).
      destruct (s <? dlen); [|now injection H as <-].
      apply bind_done in H as (i & _ & H).
      apply bind_done in H as (d' & _ & H).
      apply bind_done in H as (count' & _ & H).
      apply IH in H; [assumption|].
      apply after_pop_initialized; [assumption|lia].
Qed.

Lemma set_data_loop_initialized (dlen offset : Z) (fuel : nat) :
  forall c d count r,
  initialized c -> set_data_loop fuel c d dlen offset count = Done r ->
  initialized r.1.
Proof.
  induction fuel as [|fuel IH]; intros c d count r Hi H.
  - apply set_data_loop_O in H. now subst r.
  - destruct (Z.le_gt_cases (maxlen c) (len c)) as [Hle|Hlt].
    + rewrite set_data_loop_exit in H by assumption. now injection H as <-.
    + rewrite set_data_loop_step in H by (assumption || lia).
      apply bind_done in H as (s & _ & H).
      destruct (s <? dlen); [|now injection H as <-].
      apply bind_done in H as (i & _ & H).
      apply bind_done in H as (v & _ & H).
      apply bind_done in H as (count' & _ & H).
      apply IH in H; [assumption|].
      apply after_push_initialized; [assumption|lia].
Qed.

(** ** The invariant *)

Lemma empty_initialized (c : circular_buffer) :
  initialized c -> initialized (mk_cb (buffer c) 0 0 0 (maxlen c)).
Proof.
  intros [Hst Hc _ _ _]. constructor; cbn; try lia. assumption.
Qed.

Lemma pop_no_slot (c : circular_buffer) (r : result) :
  initialized c -> len c <> 0 ->
  circular_buffer_pop (Some c) (Some []) <> Done r.
Proof.
  intros Hi Hne. unfold circular_buffer_pop, circular_buffer_is_empty.
  destruct (Z.eqb_spec (len c) 0); [lia|]. cbn [fst Z.eqb].
  rewrite load_front by (assumption || destruct Hi; lia).
  cbn. discriminate.
Qed.

Lemma exec_initialized (k : call) (c c' : circular_buffer) (r : result) :
  initialized c -> exec k c = Done r -> r_buf r = Some c' -> initialized c'.
Proof.
  intros Hi H Hb. destruct k as [x|data| |data dlen offset|data dlen offset
                                |data dlen offset offset_cb| |]; cbn [exec] in H.
  - destruct (Z.eq_dec (len c) (maxlen c)) as [E|Hne].
    + rewrite push_full in H by assumption. injection H as <-.
      cbn in Hb. congruence.
    + rewrite push_ok in H by assumption. injection H as <-.
      cbn in Hb. injection Hb as <-.
      apply after_push_initialized; [assumption|destruct Hi; lia].
  - destruct data as [d|].
    + destruct (Z.eq_dec (len c) 0) as [E|Hne].
      * rewrite pop_empty in H by assumption. injection H as <-.
        cbn in Hb. congruence.
      * destruct d as [|p d]; [now apply pop_no_slot in H|].
        rewrite pop_ok in H by (assumption || discriminate).
        injection H as <-. cbn in Hb. injection Hb as <-.
        apply after_pop_initialized; [assumption|destruct Hi; lia].
    + cbn in H. injection H as <-. cbn in Hb. congruence.
  - cbn in H. injection H as <-. cbn in Hb. injection Hb as <-.
    now apply empty_initialized.
  - unfold circular_buffer_get_data in H. destruct data as [d|].
    + destruct (dlen <=? 0).
      * injection H as <-. cbn in Hb. congruence.
      * apply bind_done in H as (d0 & _ & H).
        apply bind_done in H as (t & Hloop & H).
        injection H as <-. cbn in Hb. injection Hb as <-.
        eapply get_data_loop_initialized; eassumption.
    + injection H as <-. cbn in Hb. congruence.
  - unfold circular_buffer_set_data in H. destruct data as [d|].
    + destruct (dlen <? 0).
      * injection H as <-. cbn in Hb. congruence.
      * apply bind_done in H as (t & Hloop & H).
        injection H as <-. cbn in Hb. injection Hb as <-.
        eapply set_data_loop_initialized; eassumption.
    + injection H as <-. cbn in Hb. congruence.
  - unfold circular_buffer_peek in H. destruct data as [d|].
    + destruct (dlen <=? 0).
      * injection H as <-. cbn in Hb. congruence.
      * apply bind_done in H as (d0 & _ & H).
        apply bind_done in H as (t & _ & H).
        apply bind_done in H as (i & _ & H).
        apply bind_done in H as (q & _ & H).
        injection H as <-. cbn in Hb. congruence.
    + injection H as <-. cbn in Hb. congruence.
  - injection H as <-. cbn in Hb. congruence.
  - injection H as <-. cbn in Hb. congruence.
Qed.

Lemma reachable_initialized (c : circular_buffer) :
  reachable c -> initialized c.
Proof.
  induction 1 as [malloc c0 c max_len Hs Hr Hinit|k c c' r _ IH Hx Hb].
  - now destruct (init_success malloc c0 c max_len Hs Hr Hinit).
  - eapply exec_initialized; eassumption.
Qed.

(** C4.  Every object reached from a successful [circular_buffer_init] by
    calls of push, pop, empty, get_data, set_data, peek, is_empty and is_full
    has [0 <= len <= maxlen]; [head == tail] when [len == 0]; and, when
    [len > 0], [head == (tail + len - 1) mod maxlen] with [head] and [tail]
    in [[0, maxlen)]. *)
Theorem buffer_invariant (c : circular_buffer) :
  reachable c ->
  0 <= len c <= maxlen c /\
  (len c = 0 -> head c = tail c) /\
  (0 < len c ->
     head c = (tail c + len c - 1) mod maxlen c /\
     0 <= head c < maxlen c /\ 0 <= tail c < maxlen c).
Proof.
  intros Hr. apply reachable_initialized in Hr.
  pose proof (initialized_head_range c Hr) as Hh.
  destruct Hr as [_ Hc Hl Ht Hd]. split_and!; try lia.
  - intros E. rewrite Hd, E. reflexivity.
  - intros Hlt. split_and!; try lia.
    rewrite Hd. destruct (Z.eqb_spec (len c) 0); [lia|]. reflexivity.
Qed.

(** ** Filling from an array *)

Lemma window_nil (a : list ptr) (n i : Z) : n <= i -> window a n i = [].
Proof.
  intros H. unfold window. replace (Z.to_nat (n - i)) with 0%nat by lia.
  reflexivity.
Qed.

Lemma window_cons (a : list ptr) (n i : Z) (v : ptr) :
  0 <= i < n -> a !! Z.to_nat i = Some v ->
  window a n i = v :: window a n (i + 1).
Proof.
  intros Hi Hv. unfold window.
  replace (Z.to_nat (n - i)) with (S (Z.to_nat (n - (i + 1)))) by lia.
  replace (Z.to_nat (i + 1)) with (S (Z.to_nat i)) by lia.
  rewrite (drop_S a v (Z.to_nat i) Hv). reflexivity.
Qed.

Lemma repeated_push_full (xs : list ptr) (c : circular_buffer) (count : Z) :
  len c = maxlen c -> repeated_push xs c count = Done (c, count).
Proof.
  intros E. destruct xs as [|x xs]; [reflexivity|].
  cbn [repeated_push]. now rewrite push_full.
Qed.

Lemma repeated_push_cons (x : ptr) (xs : list ptr) (c : circular_buffer)
    (count : Z) :
  initialized c -> len c < maxlen c ->
  repeated_push (x :: xs) c count
  = repeated_push xs (after_push c x) (count + 1).
Proof.
  intros Hi Hlt. cbn [repeated_push]. rewrite push_ok by (assumption || lia).
  reflexivity.
Qed.

Section Fill.

Variable d : list ptr.
Variables dlen offset : Z.
Hypothesis offset_pos : 0 <= offset.
Hypothesis dlen_int : dlen <= INT_MAX.
Hypothesis dlen_fits : dlen <= Z.of_nat (length d).

(** The loop of [circular_buffer_set_data] from [count] on: it takes as
    many elements as there is room for and as the array still has, and it
    does what pushing them one call at a time does. *)
Lemma set_data_loop_spec (fuel : nat) :
  forall c count,
  initialized c -> 0 <= count -> count + offset <= dlen ->
  maxlen c - len c <= Z.of_nat fuel ->
  exists c',
    set_data_loop fuel c d dlen offset count
    = Done (c', count + Z.min (maxlen c - len c) (dlen - offset - count)) /\
    repeated_push (window d dlen (offset + count)) c count
    = Done (c', count + Z.min (maxlen c - len c) (dlen - offset - count)) /\
    initialized c' /\ maxlen c' = maxlen c /\
    len c' = len c + Z.min (maxlen c - len c) (dlen - offset - count).
Proof.
  induction fuel as [|fuel IH]; intros c count Hi Hc Hco Hf.
  - assert (E : len c = maxlen c) by (destruct Hi; lia).
    exists c. rewrite set_data_loop_exit, repeated_push_full by lia.
    replace (Z.min (maxlen c - len c) (dlen - offset - count)) with 0 by lia.
    rewrite !Z.add_0_r. auto.
  - destruct (Z.eq_dec (len c) (maxlen c)) as [E|Hne].
    + exists c. rewrite set_data_loop_exit, repeated_push_full by lia.
      replace (Z.min (maxlen c - len c) (dlen - offset - count)) with 0
        by lia.
      rewrite !Z.add_0_r. auto.
    + assert (Hlt : len c < maxlen c) by (destruct Hi; lia).
      rewrite set_data_loop_step by assumption.
      rewrite int_add_ok by (unfold INT_MIN, INT_MAX in *; lia).
      cbn [bind].
      destruct (Z.ltb_spec (count + offset) dlen) as [Hin|Hout].
      * destruct (lookup_in_range d (offset + count)) as [v Hv]; [lia|].
        rewrite int_add_ok by (unfold INT_MIN, INT_MAX in *; lia).
        cbn [bind]. rewrite (load_ok d (offset + count) v) by (lia || easy).
        cbn [bind].
        rewrite int_add_ok by (unfold INT_MIN, INT_MAX in *; lia).
        cbn [bind].
        rewrite (window_cons d dlen (offset + count) v) by (lia || easy).
        rewrite repeated_push_cons by assumption.
        destruct (IH (after_push c v) (count + 1))
          as (c' & Hl & Hp & Hi' & Hm & Hn);
          [now apply after_push_initialized|lia|lia
          |cbn [len maxlen after_push]; lia|].
        cbn [len maxlen after_push] in *.
        replace (count + 1 + Z.min (maxlen c - (len c + 1))
                                   (dlen - offset - (count + 1)))
          with (count + Z.min (maxlen c - len c) (dlen - offset - count))
          in * by lia.
        replace (offset + (count + 1)) with (offset + count + 1) in Hp
          by lia.
        exists c'. split_and!; try assumption. lia.
      * exists c. rewrite window_nil by lia. cbn [repeated_push].
        replace (Z.min (maxlen c - len c) (dlen - offset - count)) with 0
          by lia.
        rewrite !Z.add_0_r. auto.
Qed.

End Fill.

Lemma set_data_loop_count (d : list ptr) (dlen offset : Z) (fuel : nat) :
  forall c count r,
  set_data_loop fuel c d dlen offset count = Done r -> count <= r.2.
Proof.
  induction fuel as [|fuel IH]; intros c count r H.
  - apply set_data_loop_O in H. subst r. cbn. lia.
  - cbn [set_data_loop] in H.
    destruct (len c <? maxlen c); [|injection H as <-; cbn; lia].
    apply bind_done in H as (s & _ & H).
    destruct (s <? dlen); [|injection H as <-; cbn; lia].
    apply bind_done in H as (h & _ & H).
    apply bind_done in H as (i & _ & H).
    apply bind_done in H as (v & _ & H).
    apply bind_done in H as (count' & Hc & H).
    apply bind_done in H as (b & _ & H).
    apply bind_done in H as (l & _ & H).
    apply IH in H. apply int_add_done in Hc. lia.
Qed.


(** ** Peeking *)

Lemma zero_bytes_length (d : list ptr) :
  forall n, length (zero_bytes d n) = length d.
Proof.
  induction d as [|p d IH]; intros n; cbn [zero_bytes]; [reflexivity|].
  destruct (n <=? 0); [reflexivity|].
  destruct (sizeof_ptr <=? n); cbn [length]; [now rewrite IH|reflexivity].
Qed.

Lemma memset_zero_ok (d : list ptr) (n : Z) :
  0 < n <= INT_MAX -> n <= Z.of_nat (length d) ->
  memset_zero d (to_size_t n) = Done (zero_bytes d n).
Proof.
  intros Hn Hd. unfold memset_zero, to_size_t.
  rewrite Z.mod_small by (unfold INT_MAX, SIZE_MOD in *; lia).
  destruct (Z.leb_spec n (sizeof_ptr * Z.of_nat (length d))); [reflexivity|].
  unfold sizeof_ptr in *. lia.
Qed.

Lemma bind_fuel {A B : Type} (m : outcome A) (k : A -> outcome B) :
  m <> OutOfFuel -> (forall a, m = Done a -> k a <> OutOfFuel) ->
  bind m k <> OutOfFuel.
Proof. destruct m; cbn; auto; discriminate. Qed.

Lemma int_add_fuel (a b : Z) : int_add a b <> OutOfFuel.
Proof. unfold int_add; cbv zeta. destruct (_ && _); discriminate. Qed.

Lemma int_rem_fuel (a b : Z) : int_rem a b <> OutOfFuel.
Proof.
  unfold int_rem. destruct (_ =? _); [discriminate|].
  destruct (_ && _); discriminate.
Qed.

Lemma advance_fuel (moves : bool) (i m : Z) : advance moves i m <> OutOfFuel.
Proof.
  unfold advance. destruct moves; [|discriminate].
  apply bind_fuel; [apply int_add_fuel|]. intros s _. apply int_rem_fuel.
Qed.

Lemma load_fuel (a : option (list ptr)) (i : Z) : load a i <> OutOfFuel.
Proof.
  unfold load. destruct a as [l|]; [|discriminate].
  destruct (0 <=? i); [|discriminate].
  destruct (l !! Z.to_nat i); discriminate.
Qed.

Lemma store_fuel (a : option (list ptr)) (i : Z) (v : ptr) :
  store a i v <> OutOfFuel.
Proof.
  unfold store. destruct a as [l|]; [|discriminate].
  destruct (_ && _); discriminate.
Qed.

Lemma memset_zero_fuel (d : list ptr) (n : Z) : memset_zero d n <> OutOfFuel.
Proof. unfold memset_zero. destruct (_ <=? _); discriminate. Qed.

Lemma peek_loop_fuel (dlen offset : Z) (c : circular_buffer) (fuel : nat) :
  forall d count i,
  len c - count <= Z.of_nat fuel ->
  peek_loop fuel c d dlen offset count i <> OutOfFuel.
Proof.
  induction fuel as [|fuel IH]; intros d count i Hf; cbn [peek_loop].
  - destruct (Z.ltb_spec count (len c)); [lia|discriminate].
  - destruct (count <? len c); [|discriminate].
    apply bind_fuel; [apply int_add_fuel|]. intros s _.
    destruct (s <? dlen); [|discriminate].
    apply bind_fuel; [apply load_fuel|]. intros v _.
    apply bind_fuel; [apply int_add_fuel|]. intros j _.
    apply bind_fuel; [apply store_fuel|]. intros d' _.
    apply bind_fuel; [apply int_add_fuel|]. intros count' Hc.
    apply bind_fuel; [apply advance_fuel|]. intros i' _.
    apply IH. apply int_add_done in Hc. lia.
Qed.

Lemma peek_never_out_of_fuel (c_buf : option circular_buffer)
    (data_buf : option (list ptr)) (dlen offset offset_cb : Z) :
  circular_buffer_peek c_buf data_buf dlen offset offset_cb <> OutOfFuel.
Proof.
  unfold circular_buffer_peek.
  destruct c_buf as [c|]; [|discriminate].
  destruct data_buf as [d|]; [|discriminate].
  destruct (dlen <=? 0); [discriminate|].
  apply bind_fuel; [apply memset_zero_fuel|]. intros d0 _.
  apply bind_fuel; [apply int_add_fuel|]. intros t _.
  apply bind_fuel; [apply int_rem_fuel|]. intros i _.
  apply bind_fuel; [|discriminate].
  apply peek_loop_fuel. lia.
Qed.

Section Peek.

Variable c : circular_buffer.
Variables dlen offset : Z.
Hypothesis c_init : initialized c.
Hypothesis cap_pos : 1 <= maxlen c.
Hypothesis offset_pos : 0 <= offset.
Hypothesis dlen_int : dlen <= INT_MAX.

(** With the accesses in range the loop of [circular_buffer_peek] runs to
    its end. *)
Lemma peek_loop_done (fuel : nat) :
  forall d count i,
  0 <= i < maxlen c -> offset <= count ->
  dlen <= Z.of_nat (length d) ->
  (count < len c -> count + offset <= INT_MAX) ->
  len c - count <= Z.of_nat fuel ->
  exists d' n, peek_loop fuel c d dlen offset count i = Done (d', n).
Proof.
  destruct c_init as [(st & Hst & Hlen) Hc Hl Ht _].
  induction fuel as [|fuel IH]; intros d count i Hi Hco Hd Hov Hf;
    cbn [peek_loop].
  - destruct (Z.ltb_spec count (len c)); [lia|eauto].
  - destruct (Z.ltb_spec count (len c)); [|eauto].
    rewrite int_add_ok by (unfold INT_MIN; lia). cbn [bind].
    destruct (Z.ltb_spec (count + offset) dlen); [|eauto].
    rewrite Hst. destruct (lookup_in_range st i) as [v Hv]; [lia|].
    rewrite (load_ok st i v) by (lia || assumption). cbn [bind].
    rewrite int_add_ok by (unfold INT_MIN; lia). cbn [bind].
    rewrite store_ok by lia. cbn [bind].
    rewrite int_add_ok by (unfold INT_MIN; lia). cbn [bind].
    assert (Ha : exists i', advance (1 <? len c) i (maxlen c) = Done i' /\
                            0 <= i' < maxlen c).
    { destruct (1 <? len c).
      - rewrite advance_move by lia. eexists. split; [reflexivity|].
        apply Z.mod_pos_bound. lia.
      - rewrite advance_stay. eauto. }
    destruct Ha as (i' & -> & Hi'). cbn [bind].
    apply IH; try lia. rewrite length_insert. lia.
Qed.

End Peek.

Lemma contents_lookup (c : circular_buffer) (k : nat) :
  (k < Z.to_nat (len c))%nat -> contents c !! k = Some (slot c k).
Proof.
  intros Hk. unfold contents. rewrite list_lookup_fmap.
  rewrite lookup_seq_lt by assumption. reflexivity.
Qed.

Lemma load_slot (c : circular_buffer) (k : Z) :
  initialized c -> 0 <= k < len c ->
  load (buffer c) ((tail c + k) mod maxlen c) = Done (slot c (Z.to_nat k)).
Proof.
  intros [(st & Hst & Hlen) Hc Hl Ht _] Hk. unfold slot. rewrite Hst.
  rewrite Z2Nat.id by lia.
  assert (Hr : 0 <= (tail c + k) mod maxlen c < maxlen c)
    by (apply Z.mod_pos_bound; lia).
  destruct (lookup_in_range st ((tail c + k) mod maxlen c)) as [v Hv]; [lia|].
  rewrite Hv. apply load_ok; [lia|assumption].
Qed.

Section PeekCopy.

Variable c : circular_buffer.
Variables dlen offset : Z.
Hypothesis c_init : initialized c.
Hypothesis offset_pos : 0 <= offset.
Hypothesis dlen_int : dlen <= INT_MAX.

(** The loop of [circular_buffer_peek] from [count] on, with the index [i]
    at the element [count] places after the oldest one: it copies the [m]
    elements of the queue from place [count] on to [data_buf[offset + count]]
    and the places after it, [m] the smaller of [len - count] and
    [len' - offset - count] for the array length [len'], and its count ends
    at [count + m]. *)
Lemma peek_loop_spec (fuel : nat) :
  forall d count i,
  offset <= count -> count + offset <= INT_MAX ->
  (count < len c -> i = (tail c + count) mod maxlen c) ->
  dlen <= Z.of_nat (length d) ->
  len c - count <= Z.of_nat fuel ->
  peek_loop fuel c d dlen offset count i
  = Done (list_inserts (Z.to_nat (offset + count))
            (take (Z.to_nat (Z.min (len c - count) (dlen - offset - count)))
                  (drop (Z.to_nat count) (contents c))) d,
          count + Z.max 0 (Z.min (len c - count) (dlen - offset - count))).
Proof.
  assert (Hcap : 0 <= len c <= maxlen c /\ maxlen c <= INT_MAX)
    by (destruct c_init; lia).
  assert (Htail : 0 <= tail c < Z.max 1 (maxlen c)) by (destruct c_init; lia).
  induction fuel as [|fuel IH]; intros d count i Hco Hov Hi Hd Hf;
    cbn [peek_loop].
  - destruct (Z.ltb_spec count (len c)); [lia|].
    replace (Z.to_nat (Z.min (len c - count) (dlen - offset - count)))
      with 0%nat by lia.
    cbn [take list_inserts]. do 2 f_equal. lia.
  - destruct (Z.ltb_spec count (len c)) as [Hlt|Hge].
    + rewrite int_add_ok by (unfold INT_MIN; lia). cbn [bind].
      destruct (Z.ltb_spec (count + offset) dlen) as [Hin|Hout].
      * rewrite (Hi Hlt), load_slot by (assumption || lia). cbn [bind].
        rewrite int_add_ok by (unfold INT_MIN; lia). cbn [bind].
        rewrite store_ok by lia. cbn [bind].
        rewrite int_add_ok by (unfold INT_MIN; lia). cbn [bind].
        assert (Ha : exists i',
                   advance (1 <? len c) ((tail c + count) mod maxlen c)
                           (maxlen c) = Done i' /\
                   (count + 1 < len c ->
                    i' = (tail c + (count + 1)) mod maxlen c)).
        { destruct (Z.ltb_spec 1 (len c)).
          - rewrite advance_move by (try apply Z.mod_pos_bound; lia).
            eexists. split; [reflexivity|]. intros _.
            rewrite Zplus_mod_idemp_l. f_equal. lia.
          - rewrite advance_stay. eexists. split; [reflexivity|]. lia. }
        destruct Ha as (i' & -> & Hi'). cbn [bind].
        rewrite IH by (rewrite ?length_insert; assumption || lia).
        replace (Z.to_nat (Z.min (len c - count) (dlen - offset - count)))
          with (S (Z.to_nat (Z.min (len c - (count + 1))
                                   (dlen - offset - (count + 1))))) by lia.
        rewrite (drop_S (contents c) (slot c (Z.to_nat count))
                        (Z.to_nat count))
          by (apply contents_lookup; lia).
        cbn [take list_inserts].
        rewrite list_insert_inserts_lt by lia.
        replace (Z.to_nat (offset + (count + 1)))
          with (S (Z.to_nat (offset + count))) by lia.
        replace (Z.to_nat (count + 1)) with (S (Z.to_nat count)) by lia.
        do 2 f_equal. lia.
      * replace (Z.to_nat (Z.min (len c - count) (dlen - offset - count)))
          with 0%nat by lia.
        cbn [take list_inserts]. do 2 f_equal. lia.
    + replace (Z.to_nat (Z.min (len c - count) (dlen - offset - count)))
        with 0%nat by lia.
      cbn [take list_inserts]. do 2 f_equal. lia.
Qed.

End PeekCopy.

(** What [circular_buffer_peek] does on an initialized buffer of capacity at
    least 1, with an array of at least [len] elements and [offset >= 0]: it
    clears the first [len] bytes of the array, copies the elements of the
    queue from place [offset] on to [data_buf[2 * offset]] and the places
    after it, [m] of them, the smaller of the number held minus [offset] and
    [len - 2 * offset], and returns [offset + m].  [offset_cb] plays no
    part. *)
Lemma peek_copies (c : circular_buffer) (d : list ptr)
    (dlen offset offset_cb : Z) :
  initialized c -> 1 <= maxlen c ->
  0 < dlen <= INT_MAX -> dlen <= Z.of_nat (length d) ->
  0 <= offset -> tail c + offset <= INT_MAX -> 2 * offset <= INT_MAX ->
  circular_buffer_peek (Some c) (Some d) dlen offset offset_cb
  = Done (mk_result (Some c)
            (Some (list_inserts (Z.to_nat (2 * offset))
                     (take (Z.to_nat (Z.min (len c - offset)
                                            (dlen - 2 * offset)))
                           (drop (Z.to_nat offset) (contents c)))
                     (zero_bytes d dlen)))
            (offset + Z.max 0 (Z.min (len c - offset) (dlen - 2 * offset)))
            None).
Proof.
  intros Hi Hcap Hd Hfit Ho Ht Ho2. unfold circular_buffer_peek.
  destruct (Z.leb_spec dlen 0); [lia|].
  rewrite memset_zero_ok by lia. cbn [bind].
  assert (Htl : 0 <= tail c) by (destruct Hi; lia).
  rewrite int_add_ok by (unfold INT_MIN; lia). cbn [bind].
  rewrite int_rem_ok by lia. cbn [bind].
  rewrite (peek_loop_spec c dlen offset Hi Ho);
    try lia; try (rewrite zero_bytes_length; lia); try reflexivity.
  cbn [bind fst snd].
  replace (offset + offset) with (2 * offset) by lia.
  replace (dlen - offset - offset) with (dlen - 2 * offset) by lia.
  reflexivity.
Qed.

(** C9.  A call of [circular_buffer_peek] that returns leaves the object
    behind [c_buf] as it was: block, [head], [tail], [len] and [maxlen]
    alike, whether it returns -1 or a count.  The loop of the call always
    comes to an end.  On an initialized buffer of capacity at least 1, with
    an array of at least [len] elements, [offset >= 0] and the sums
    [tail + offset] and [offset + offset] in [int], the call returns. *)
Theorem peek_frame (c_buf : option circular_buffer)
    (data_buf : option (list ptr)) (dlen offset offset_cb : Z) :
  circular_buffer_peek c_buf data_buf dlen offset offset_cb <> OutOfFuel /\
  (forall r,
     circular_buffer_peek c_buf data_buf dlen offset offset_cb = Done r ->
     r_buf r = c_buf) /\
  (forall c d,
     c_buf = Some c -> data_buf = Some d -> initialized c ->
     1 <= maxlen c -> dlen <= INT_MAX -> dlen <= Z.of_nat (length d) ->
     0 <= offset -> tail c + offset <= INT_MAX -> 2 * offset <= INT_MAX ->
     exists r,
       circular_buffer_peek c_buf data_buf dlen offset offset_cb = Done r /\
       r_buf r = Some c).
Proof.
  split; [apply peek_never_out_of_fuel|]. split.
  - intros r H. unfold circular_buffer_peek in H.
    destruct c_buf as [c|]; [|now injection H as <-].
    destruct data_buf as [d|]; [|now injection H as <-].
    destruct (dlen <=? 0); [now injection H as <-|].
    apply bind_done in H as (d0 & _ & H).
    apply bind_done in H as (t & _ & H).
    apply bind_done in H as (i & _ & H).
    apply bind_done in H as (q & _ & H).
    now injection H as <-.
  - intros c d -> -> Hi Hcap Hint Hfit Ho Ht Ho2.
    unfold circular_buffer_peek.
    destruct (Z.leb_spec dlen 0); [eexists; split; reflexivity|].
    rewrite memset_zero_ok by lia. cbn [bind].
    assert (Htl : 0 <= tail c) by (destruct Hi; lia).
    rewrite int_add_ok by (unfold INT_MIN; lia). cbn [bind].
    rewrite int_rem_ok by lia. cbn [bind].
    destruct (peek_loop_done c dlen offset Hi Hcap Ho Hint
                (Z.to_nat (len c - offset)) (zero_bytes d dlen) offset
                ((tail c + offset) mod maxlen c))
      as (d' & n & Hloop); try lia.
    + apply Z.mod_pos_bound. lia.
    + rewrite zero_bytes_length. lia.
    + rewrite Hloop. cbn [bind]. eexists. split; reflexivity.
Qed.

(** C10.  The argument [offset_cb] of [circular_buffer_peek] is not used:
    two calls that differ in it alone have the same outcome, the count
    returned and the array left behind included. *)
Theorem peek_ignores_offset_cb (c_buf : option circular_buffer)
    (data_buf : option (list ptr)) (dlen offset a b : Z) :
  circular_buffer_peek c_buf data_buf dlen offset a
  = circular_buffer_peek c_buf data_buf dlen offset b.
Proof. reflexivity. Qed.

(** ** Draining into an array *)

Lemma run_pops_prefix (n : nat) :
  forall c, initialized c -> Z.of_nat n <= len c ->
  run (repeat Pop n) c = Done ([], take n (contents c), after_pops n c).
Proof.
  induction n as [|n IH]; intros c Hi Hn; [reflexivity|].
  cbn [repeat after_pops].
  rewrite run_pop_ok by (assumption || lia).
  rewrite IH by (try apply after_pop_initialized;
                 cbn [len after_pop]; assumption || lia).
  rewrite (contents_after_pop c) by (assumption || lia). reflexivity.
Qed.

Section Drain.

Variables dlen offset : Z.
Hypothesis offset_pos : 0 <= offset.
Hypothesis dlen_int : dlen <= INT_MAX.

(** The loop of [circular_buffer_get_data] from [count] on: it moves the
    [k] oldest elements, as many as are held and as the array has room for,
    to [data_buf[offset + count]] and the places after it, and leaves the
    object that [k] pops leave. *)
Lemma get_data_loop_spec (fuel : nat) :
  forall c d count,
  initialized c -> 0 <= count -> count + offset <= dlen ->
  dlen <= Z.of_nat (length d) -> len c <= Z.of_nat fuel ->
  get_data_loop fuel c d dlen offset count
  = Done (after_pops (Z.to_nat (Z.min (len c) (dlen - offset - count))) c,
          list_inserts (Z.to_nat (offset + count))
            (take (Z.to_nat (Z.min (len c) (dlen - offset - count)))
                  (contents c)) d,
          count + Z.min (len c) (dlen - offset - count)).
Proof.
  induction fuel as [|fuel IH]; intros c d count Hi Hc Hco Hd Hf.
  - assert (E : len c = 0) by (destruct Hi; lia).
    rewrite get_data_loop_exit by lia.
    replace (Z.min (len c) (dlen - offset - count)) with 0 by lia.
    cbn [Z.to_nat after_pops take list_inserts]. now rewrite Z.add_0_r.
  - destruct (Z.eq_dec (len c) 0) as [E|Hne].
    + rewrite get_data_loop_exit by lia.
      replace (Z.min (len c) (dlen - offset - count)) with 0 by lia.
      cbn [Z.to_nat after_pops take list_inserts]. now rewrite Z.add_0_r.
    + assert (Hlt : 0 < len c) by (destruct Hi; lia).
      rewrite get_data_loop_step by assumption.
      rewrite int_add_ok by (unfold INT_MIN, INT_MAX in *; lia).
      cbn [bind].
      destruct (Z.ltb_spec (count + offset) dlen) as [Hin|Hout].
      * rewrite int_add_ok by (unfold INT_MIN, INT_MAX in *; lia).
        cbn [bind]. rewrite store_ok by lia. cbn [bind].
        rewrite int_add_ok by (unfold INT_MIN, INT_MAX in *; lia).
        cbn [bind].
        rewrite IH;
          [|now apply after_pop_initialized|lia|lia
           |rewrite length_insert; lia|cbn [len after_pop]; lia].
        cbn [len after_pop].
        replace (Z.to_nat (Z.min (len c) (dlen - offset - count)))
          with (S (Z.to_nat (Z.min (len c - 1)
                                   (dlen - offset - (count + 1))))) by lia.
        rewrite (contents_after_pop c) by assumption.
        cbn [after_pops take list_inserts].
        rewrite list_insert_inserts_lt by lia.
        replace (Z.to_nat (offset + (count + 1)))
          with (S (Z.to_nat (offset + count))) by lia.
        do 2 f_equal. lia.
      * replace (Z.min (len c) (dlen - offset - count)) with 0 by lia.
        cbn [Z.to_nat after_pops take list_inserts]. now rewrite Z.add_0_r.
Qed.

End Drain.

(** What [circular_buffer_get_data] does on an initialized buffer, with an
    array of at least [len] elements and [0 <= offset < len]: it clears the
    first [len] bytes of the array, moves the [n] oldest elements, [n] the
    smaller of the number held and [len - offset], to [data_buf[offset]] and
    the places after it, returns [n], and leaves the object that [n] single
    pops leave. *)
Lemma get_data_moves (c : circular_buffer) (d : list ptr) (dlen offset : Z) :
  initialized c -> 0 < dlen <= INT_MAX -> dlen <= Z.of_nat (length d) ->
  0 <= offset < dlen ->
  circular_buffer_get_data (Some c) (Some d) dlen offset
  = Done (mk_result
            (Some (after_pops (Z.to_nat (Z.min (len c) (dlen - offset))) c))
            (Some (list_inserts (Z.to_nat offset)
                     (take (Z.to_nat (Z.min (len c) (dlen - offset)))
                           (contents c))
                     (zero_bytes d dlen)))
            (Z.min (len c) (dlen - offset)) None) /\
  run (repeat Pop (Z.to_nat (Z.min (len c) (dlen - offset)))) c
  = Done ([], take (Z.to_nat (Z.min (len c) (dlen - offset))) (contents c),
          after_pops (Z.to_nat (Z.min (len c) (dlen - offset))) c).
Proof.
  intros Hi Hd Hfit Ho. split.
  - unfold circular_buffer_get_data.
    destruct (Z.leb_spec dlen 0); [lia|].
    rewrite memset_zero_ok by lia. cbn [bind].
    rewrite (get_data_loop_spec dlen offset) ; try lia; try assumption.
    + cbn [bind fst snd]. rewrite Z.sub_0_r, Z.add_0_r, Z.add_0_l.
      reflexivity.
    + rewrite zero_bytes_length. lia.
  - apply run_pops_prefix; [assumption|]. destruct Hi; lia.
Qed.

Lemma get_data_loop_count (dlen offset : Z) (fuel : nat) :
  forall c d count r,
  get_data_loop fuel c d dlen offset count = Done r -> count <= r.2.
Proof.
  induction fuel as [|fuel IH]; intros c d count r H.
  - apply get_data_loop_O in H. subst r. cbn. lia.
  - cbn [get_data_loop] in H.
    destruct (0 <? len c); [|injection H as <-; cbn; lia].
    apply bind_done in H as (s & _ & H).
    destruct (s <? dlen); [|injection H as <-; cbn; lia].
    apply bind_done in H as (v & _ & H).
    apply bind_done in H as (i & _ & H).
    apply bind_done in H as (d' & _ & H).
    apply bind_done in H as (count' & Hc & H).
    apply bind_done in H as (t & _ & H).
    apply bind_done in H as (l & _ & H).
    apply IH in H. apply int_add_done in Hc. lia.
Qed.

(** The calls that return -1, and no others, are those with a null [c_buf]
    or [data_buf] or with [len <= 0]; they leave the object and the array alone. *)
Lemma get_data_rejects (c_buf : option circular_buffer)
    (data_buf : option (list ptr)) (dlen offset : Z) (r : result) :
  circular_buffer_get_data c_buf data_buf dlen offset = Done r ->
  (r_ret r = -1 <-> c_buf = None \/ data_buf = None \/ dlen <= 0) /\
  (r_ret r = -1 ->
   r_errno r = Some EINVAL /\ r_buf r = c_buf /\ r_data r = data_buf).
Proof.
  intros H. unfold circular_buffer_get_data in H.
  destruct c_buf as [c|]; [|injection H as <-; cbn; tauto].
  destruct data_buf as [d|]; [|injection H as <-; cbn; tauto].
  destruct (Z.leb_spec dlen 0); [injection H as <-; cbn; tauto|].
  apply bind_done in H as (d0 & _ & H).
  apply bind_done in H as (t & Hloop & H). injection H as <-.
  apply get_data_loop_count in Hloop. cbn [r_ret r_errno r_buf r_data].
  split; [split|]; intros Hx.
  - lia.
  - destruct Hx as [Hx|[Hx|Hx]]; (discriminate || lia).
  - lia.
Qed.

(** ** The loops come to an end *)

Lemma get_data_loop_fuel (dlen offset : Z) (fuel : nat) :
  forall c d count,
  len c <= Z.of_nat fuel ->
  get_data_loop fuel c d dlen offset count <> OutOfFuel.
Proof.
  induction fuel as [|fuel IH]; intros c d count Hf; cbn [get_data_loop].
  - destruct (Z.ltb_spec 0 (len c)); [lia|discriminate].
  - destruct (0 <? len c); [|discriminate].
    apply bind_fuel; [apply int_add_fuel|]. intros s _.
    destruct (s <? dlen); [|discriminate].
    apply bind_fuel; [apply load_fuel|]. intros v _.
    apply bind_fuel; [apply int_add_fuel|]. intros j _.
    apply bind_fuel; [apply store_fuel|]. intros d' _.
    apply bind_fuel; [apply int_add_fuel|]. intros count' _.
    apply bind_fuel; [apply advance_fuel|]. intros t _.
    apply bind_fuel; [apply int_add_fuel|]. intros l Hl.
    apply IH. cbn [len]. apply int_add_done in Hl. lia.
Qed.

Lemma set_data_loop_fuel (dlen offset : Z) (fuel : nat) :
  forall c d count,
  maxlen c - len c <= Z.of_nat fuel ->
  set_data_loop fuel c d dlen offset count <> OutOfFuel.
Proof.
  induction fuel as [|fuel IH]; intros c d count Hf; cbn [set_data_loop].
  - destruct (Z.ltb_spec (len c) (maxlen c)); [lia|discriminate].
  - destruct (len c <? maxlen c); [|discriminate].
    apply bind_fuel; [apply int_add_fuel|]. intros s _.
    destruct (s <? dlen); [|discriminate].
    apply bind_fuel; [apply advance_fuel|]. intros h _.
    apply bind_fuel; [apply int_add_fuel|]. intros j _.
    apply bind_fuel; [apply load_fuel|]. intros v _.
    apply bind_fuel; [apply int_add_fuel|]. intros count' _.
    apply bind_fuel; [apply store_fuel|]. intros b _.
    apply bind_fuel; [apply int_add_fuel|]. intros l Hl.
    apply IH. cbn [len maxlen]. apply int_add_done in Hl. lia.
Qed.

(** No call of the two bulk transfers stops for lack of fuel. *)
Lemma bulk_never_out_of_fuel (c_buf : option circular_buffer)
    (data_buf : option (list ptr)) (dlen offset : Z) :
  circular_buffer_get_data c_buf data_buf dlen offset <> OutOfFuel /\
  circular_buffer_set_data c_buf data_buf dlen offset <> OutOfFuel.
Proof.
  unfold circular_buffer_get_data, circular_buffer_set_data.
  destruct c_buf as [c|]; [|split; discriminate].
  destruct data_buf as [d|]; [|split; discriminate]. split.
  - destruct (dlen <=? 0); [discriminate|].
    apply bind_fuel; [apply memset_zero_fuel|]. intros d0 _.
    apply bind_fuel; [|discriminate]. apply get_data_loop_fuel. lia.
  - destruct (dlen <? 0); [discriminate|].
    apply bind_fuel; [|discriminate]. apply set_data_loop_fuel. lia.
Qed.

(** ** Initialisation, as the code has it *)

(** C6, as the code has it.  [circular_buffer_init] sets [errno] to [EINVAL]
    exactly when [c_buf] is null, and then returns -1.  With an object to
    work on it asks the allocator for [sizeof(void * ) * max_len] bytes,
    computed in [size_t], whatever the sign of [max_len]: when that fails it
    returns -1 with [errno] set to [ENOMEM]; otherwise it returns 0 and the
    object has the block, [head == tail == len == 0] and
    [maxlen == max_len].  For an [int] capacity and an allocator that hands
    out blocks of the size asked for, the block of a call that returned 0 has
    exactly [max_len] elements. *)
Theorem init_behaviour (malloc : allocator) (c_buf : option circular_buffer)
    (max_len : Z) :
  (r_errno (circular_buffer_init malloc c_buf max_len) = Some EINVAL
   <-> c_buf = None) /\
  (c_buf = None -> r_ret (circular_buffer_init malloc c_buf max_len) = -1) /\
  (forall c, c_buf = Some c ->
     malloc (size_mul sizeof_ptr (to_size_t max_len)) = None ->
     r_ret (circular_buffer_init malloc c_buf max_len) = -1 /\
     r_errno (circular_buffer_init malloc c_buf max_len) = Some ENOMEM) /\
  (forall c blk, c_buf = Some c ->
     malloc (size_mul sizeof_ptr (to_size_t max_len)) = Some blk ->
     circular_buffer_init malloc c_buf max_len
     = mk_result (Some (mk_cb (Some blk) 0 0 0 max_len)) None 0 None) /\
  (malloc_sane malloc -> INT_MIN <= max_len <= INT_MAX ->
   r_ret (circular_buffer_init malloc c_buf max_len) = 0 ->
   exists blk,
     r_buf (circular_buffer_init malloc c_buf max_len)
     = Some (mk_cb (Some blk) 0 0 0 max_len) /\
     Z.of_nat (length blk) = max_len).
Proof.
  unfold circular_buffer_init. split_and!.
  - destruct c_buf as [c|]; [|tauto].
    destruct (malloc _); cbn; split; discriminate.
  - now intros ->.
  - intros c -> ->. cbn. auto.
  - intros c blk -> ->. reflexivity.
  - intros Hs Hr. destruct c_buf as [c|]; [|discriminate].
    destruct (malloc _) as [blk|] eqn:Hm; [|discriminate].
    intros _. exists blk. split; [reflexivity|].
    now apply (init_block malloc).
Qed.

(** ** Examples *)

Lemma demo_malloc_sane : malloc_sane demo_malloc.
Proof.
  intros n blk. unfold demo_malloc.
  destruct (Z.leb_spec 0 n); [|discriminate].
  destruct (Z.leb_spec n 4096); [|discriminate].
  destruct (Z.eqb_spec (n mod sizeof_ptr) 0) as [E|]; [|discriminate].
  cbn [andb]. intros [= <-]. rewrite repeat_length.
  unfold PTRDIFF_MAX, sizeof_ptr in *. split; [lia|].
  rewrite Z2Nat.id by (apply Z.div_pos; lia).
  symmetry. apply Z_div_exact_full_2; [lia|assumption].
Qed.

Lemma demo_init :
  circular_buffer_init demo_malloc (Some demo_object) 3
  = mk_result (Some demo_fresh) None 0 None.
Proof. reflexivity. Qed.

Lemma demo_held_initialized : initialized demo_held.
Proof.
  constructor; cbn; unfold INT_MAX; try lia.
  - eexists. split; reflexivity.
  - reflexivity.
Qed.

Lemma demo_fresh_reachable : reachable demo_fresh.
Proof.
  apply (reach_init demo_malloc demo_object demo_fresh 3).
  - exact demo_malloc_sane.
  - unfold INT_MIN, INT_MAX. lia.
  - exact demo_init.
Qed.

(** The scenario of a capacity of 3: A, B and C go in, D is turned down,
    A comes out, D goes in, then B, C and D come out. *)
Example scenario_capacity_3 :
  run [Push 11; Push 12; Push 13; Push 14; Pop; Push 14; Pop; Pop; Pop]
      demo_fresh
  = Done ([11; 12; 13; 14], [11; 12; 13; 14],
          mk_cb (Some [14; 12; 13]) 0 0 0 3).
Proof. reflexivity. Qed.

(** The scenario of a capacity of 2: a pop on the fresh buffer is turned
    down, X goes in, and a drain into an array of five elements returns 1
    with X in the first place and the buffer empty. *)
Example scenario_capacity_2 :
  let c := mk_cb (Some [NULL; NULL]) 0 0 0 2 in
  circular_buffer_init demo_malloc (Some demo_object) 2
  = mk_result (Some c) None 0 None /\
  circular_buffer_pop (Some c) (Some [NULL])
  = Done (mk_result (Some c) (Some [NULL]) (-1) (Some EINVAL)) /\
  circular_buffer_push (Some c) 21
  = Done (mk_result (Some (after_push c 21)) None 0 None) /\
  circular_buffer_get_data (Some (after_push c 21))
    (Some [NULL; NULL; NULL; NULL; NULL]) 5 0
  = Done (mk_result (Some (mk_cb (Some [21; NULL]) 0 0 0 2))
            (Some [21; NULL; NULL; NULL; NULL]) 1 None) /\
  circular_buffer_is_empty (Some (mk_cb (Some [21; NULL]) 0 0 0 2))
  = (1, None).
Proof. cbv zeta. split_and!; reflexivity. Qed.

Lemma fifo_order_witness :
  malloc_sane demo_malloc /\ 1 <= 3 <= INT_MAX /\
  exists pu po c',
    run [Push 11; Push 12; Pop; Push 13; Pop] demo_fresh = Done (pu, po, c') /\
    forall (k : nat) (x : ptr), po !! k = Some x -> pu !! k = Some x.
Proof.
  assert (H3 : 1 <= 3 <= INT_MAX) by (unfold INT_MAX; lia).
  split; [exact demo_malloc_sane|]. split; [exact H3|].
  exact (proj1 (fifo_order demo_malloc demo_object demo_fresh 3
                  demo_malloc_sane H3 demo_init)
               [Push 11; Push 12; Pop; Push 13; Pop]).
Defined.

Lemma push_behaviour_witness :
  initialized demo_held /\
  exists r, circular_buffer_push (Some demo_held) 14 = Done r /\
            (r_ret r = -1 <-> len demo_held = maxlen demo_held).
Proof.
  split; [exact demo_held_initialized|].
  destruct (push_behaviour demo_held 14 demo_held_initialized)
    as (r & Hr & Hret & _).
  exists r. split; assumption.
Defined.

Lemma pop_behaviour_witness :
  initialized demo_held /\ [NULL] <> [] /\
  exists r, circular_buffer_pop (Some demo_held) (Some [NULL]) = Done r /\
            (r_ret r = -1 <-> len demo_held = 0).
Proof.
  assert (Hd : [NULL] <> []) by discriminate.
  split; [exact demo_held_initialized|]. split; [exact Hd|].
  destruct (pop_behaviour demo_held [NULL] demo_held_initialized Hd)
    as (r & Hr & Hret & _).
  exists r. split; assumption.
Defined.

Lemma demo_wrapped_reachable : reachable demo_wrapped.
Proof.
  apply (reach_call (Call_push 14)
           (mk_cb (Some [11; 12; 13]) 2 1 2 3) demo_wrapped
           (mk_result (Some demo_wrapped) None 0 None));
    [|reflexivity|reflexivity].
  apply (reach_call (Call_pop (Some [NULL]))
           (mk_cb (Some [11; 12; 13]) 2 0 3 3) _
           (mk_result (Some (mk_cb (Some [11; 12; 13]) 2 1 2 3))
                      (Some [11]) 0 None));
    [|reflexivity|reflexivity].
  apply (reach_call (Call_push 13)
           (mk_cb (Some [11; 12; NULL]) 1 0 2 3) _
           (mk_result (Some (mk_cb (Some [11; 12; 13]) 2 0 3 3)) None 0 None));
    [|reflexivity|reflexivity].
  apply (reach_call (Call_push 12)
           (mk_cb (Some [11; NULL; NULL]) 0 0 1 3) _
           (mk_result (Some (mk_cb (Some [11; 12; NULL]) 1 0 2 3))
                      None 0 None));
    [|reflexivity|reflexivity].
  apply (reach_call (Call_push 11) demo_fresh _
           (mk_result (Some (mk_cb (Some [11; NULL; NULL]) 0 0 1 3))
                      None 0 None));
    [|reflexivity|reflexivity].
  exact demo_fresh_reachable.
Qed.

Lemma buffer_invariant_witness :
  reachable demo_wrapped /\ 0 < len demo_wrapped /\
  0 <= len demo_wrapped <= maxlen demo_wrapped /\
  head demo_wrapped
  = (tail demo_wrapped + len demo_wrapped - 1) mod maxlen demo_wrapped /\
  0 <= head demo_wrapped < maxlen demo_wrapped /\
  0 <= tail demo_wrapped < maxlen demo_wrapped.
Proof.
  assert (Hpos : 0 < len demo_wrapped) by (cbn; lia).
  split; [exact demo_wrapped_reachable|]. split; [exact Hpos|].
  split.
  - exact (proj1 (buffer_invariant demo_wrapped demo_wrapped_reachable)).
  - exact (proj2 (proj2 (buffer_invariant demo_wrapped
                           demo_wrapped_reachable)) Hpos).
Defined.


Lemma peek_frame_witness :
  exists r,
    circular_buffer_peek (Some demo_held) (Some [NULL; NULL; NULL; NULL])
                         4 0 0 = Done r /\
    r_buf r = Some demo_held.
Proof.
  apply (proj2 (proj2 (peek_frame (Some demo_held)
                         (Some [NULL; NULL; NULL; NULL]) 4 0 0))
               demo_held [NULL; NULL; NULL; NULL] eq_refl eq_refl
               demo_held_initialized);
    cbn; unfold INT_MAX; lia.
Defined.

Lemma init_behaviour_witness :
  malloc_sane demo_malloc /\ INT_MIN <= 3 <= INT_MAX /\
  exists blk,
    r_buf (circular_buffer_init demo_malloc (Some demo_object) 3)
    = Some (mk_cb (Some blk) 0 0 0 3) /\
    Z.of_nat (length blk) = 3.
Proof.
  assert (H3 : INT_MIN <= 3 <= INT_MAX) by (unfold INT_MIN, INT_MAX; lia).
  split; [exact demo_malloc_sane|]. split; [exact H3|].
  exact (proj2 (proj2 (proj2 (proj2
           (init_behaviour demo_malloc (Some demo_object) 3))))
         demo_malloc_sane H3 eq_refl).
Defined.

(** ** Where the code parts from its description *)

(** C6 as worded fails: a capacity of 0 is accepted when the allocator grants
    the empty request, and a capacity of -1 ends in [ENOMEM], not in
    [EINVAL]. *)
Lemma init_capacity_not_checked :
  circular_buffer_init demo_malloc (Some demo_object) 0
  = mk_result (Some (mk_cb (Some []) 0 0 0 0)) None 0 None /\
  r_ret (circular_buffer_init demo_malloc (Some demo_object) (-1)) = -1 /\
  r_errno (circular_buffer_init demo_malloc (Some demo_object) (-1))
  = Some ENOMEM.
Proof. split_and!; reflexivity. Qed.

(** C7 at a failing input: an empty buffer and an array of three elements
    that hold 0, 8 and 9.  [memset(data_buf, 0, len)] clears [len] bytes,
    not [len] elements: the call returns 0 and the second and third element
    are still 8 and 9. *)
Theorem get_data_zeroes_bytes :
  circular_buffer_get_data (Some demo_fresh) (Some [NULL; 8; 9]) 3 0
  = Done (mk_result (Some demo_fresh) (Some [NULL; 8; 9]) 0 None).
Proof. reflexivity. Qed.

(** C5 at two failing inputs, on a buffer that holds 11, 12 and 13 and a
    zeroed array of four elements.  With [offset_cb = 1] the copy still
    starts at the oldest element.  With [offset = 1] the copy starts at the
    second element of the queue, lands at [data_buf[2]] and the value
    returned is 3 for two elements copied. *)
Theorem peek_offsets :
  circular_buffer_peek (Some demo_held) (Some [0; 0; 0; 0]) 4 0 1
  = Done (mk_result (Some demo_held) (Some [11; 12; 13; 0]) 3 None) /\
  circular_buffer_peek (Some demo_held) (Some [0; 0; 0; 0]) 4 1 0
  = Done (mk_result (Some demo_held) (Some [0; 0; 12; 13]) 3 None).
Proof. split; reflexivity. Qed.

(** * Further properties of the code *)

(** ** Teardown *)

(** [circular_buffer_deinit] after a successful [circular_buffer_init]
    returns 0, hands to [free] exactly the block that [malloc] gave, and
    leaves the object with a null block and all four counters at 0.  A
    second call on that object returns 0 again, frees nothing and leaves the
    object as it is.  A call on a null [c_buf] returns -1 with [errno] set
    to [EINVAL] and frees nothing. *)
Theorem deinit_releases_once (malloc : allocator) (c0 c : circular_buffer)
    (max_len : Z) :
  circular_buffer_init malloc (Some c0) max_len
  = mk_result (Some c) None 0 None ->
  circular_buffer_deinit (Some c)
  = (mk_result (Some (mk_cb None 0 0 0 0)) None 0 None,
     malloc (size_mul sizeof_ptr (to_size_t max_len))) /\
  malloc (size_mul sizeof_ptr (to_size_t max_len)) <> None /\
  circular_buffer_deinit (Some (mk_cb None 0 0 0 0))
  = (mk_result (Some (mk_cb None 0 0 0 0)) None 0 None, None) /\
  circular_buffer_deinit None
  = (mk_result None None (-1) (Some EINVAL), None).
Proof.
  unfold circular_buffer_init.
  destruct (malloc _) as [blk|]; [|discriminate].
  intros [= <-]. split_and!; try reflexivity. discriminate.
Qed.

Lemma deinit_releases_once_witness :
  circular_buffer_deinit (Some demo_fresh)
  = (mk_result (Some (mk_cb None 0 0 0 0)) None 0 None,
     Some [NULL; NULL; NULL]).
Proof.
  exact (proj1 (deinit_releases_once demo_malloc demo_object demo_fresh 3
                  demo_init)).
Defined.

(** On an object with [len == 0] and [maxlen == 0], which is what
    [circular_buffer_deinit] and an init with capacity 0 leave, no call
    looks at the block: a push is turned down as on a full buffer, a pop as
    on an empty one, [circular_buffer_set_data] and
    [circular_buffer_get_data] return 0 and leave the object alone.
    [circular_buffer_peek], with an array and [len > 0], computes
    [% maxlen] with [maxlen == 0]: the call has undefined behaviour. *)
Theorem calls_on_zero_capacity (c : circular_buffer) (x : ptr)
    (d : list ptr) (dlen offset offset_cb : Z) :
  len c = 0 -> maxlen c = 0 ->
  0 < dlen <= INT_MAX -> dlen <= Z.of_nat (length d) ->
  circular_buffer_push (Some c) x
  = Done (mk_result (Some c) None (-1) None) /\
  circular_buffer_pop (Some c) (Some d)
  = Done (mk_result (Some c) (Some d) (-1) (Some EINVAL)) /\
  circular_buffer_set_data (Some c) (Some d) dlen offset
  = Done (mk_result (Some c) (Some d) 0 None) /\
  circular_buffer_get_data (Some c) (Some d) dlen offset
  = Done (mk_result (Some c) (Some (zero_bytes d dlen)) 0 None) /\
  circular_buffer_peek (Some c) (Some d) dlen offset offset_cb = UB.
Proof.
  intros Hl Hm Hd Hfit. split_and!.
  - apply push_full. lia.
  - now apply pop_empty.
  - unfold circular_buffer_set_data.
    destruct (Z.ltb_spec dlen 0); [lia|].
    rewrite set_data_loop_exit by lia. reflexivity.
  - unfold circular_buffer_get_data.
    destruct (Z.leb_spec dlen 0); [lia|].
    rewrite memset_zero_ok by lia. cbn [bind].
    rewrite get_data_loop_exit by lia. reflexivity.
  - unfold circular_buffer_peek.
    destruct (Z.leb_spec dlen 0); [lia|].
    rewrite memset_zero_ok by lia. cbn [bind].
    destruct (int_add (tail c) offset) as [t| |] eqn:Ht; cbn [bind].
    + unfold int_rem. rewrite Hm. reflexivity.
    + reflexivity.
    + now apply int_add_fuel in Ht.
Qed.

Lemma calls_on_zero_capacity_witness :
  circular_buffer_peek (Some (mk_cb None 0 0 0 0)) (Some [NULL; NULL]) 2 0 0
  = UB.
Proof.
  assert (H1 : 0 < 2 <= INT_MAX) by (unfold INT_MAX; lia).
  assert (H2 : 2 <= Z.of_nat (length [NULL; NULL])) by (cbn; lia).
  exact (proj2 (proj2 (proj2 (proj2
           (calls_on_zero_capacity (mk_cb None 0 0 0 0) NULL [NULL; NULL]
              2 0 0 eq_refl eq_refl H1 H2))))).
Defined.

(** ** Emptying and the two flags *)

(** [circular_buffer_empty] on an initialized buffer returns 0 and leaves
    an initialized buffer of the same capacity over the same block, with an
    empty queue: [circular_buffer_is_empty] returns 1, and whatever pushes
    and pops follow, the pops hand out only elements pushed after the call,
    in the order of the pushes; what was held before never comes out. *)
Theorem empty_forgets (c : circular_buffer) :
  initialized c ->
  exists c',
    circular_buffer_empty (Some c) = Done (mk_result (Some c') None 0 None) /\
    initialized c' /\ buffer c' = buffer c /\ maxlen c' = maxlen c /\
    contents c' = [] /\
    circular_buffer_is_empty (Some c') = (1, None) /\
    forall ops : list op, exists pu po cf,
      run ops c' = Done (pu, po, cf) /\ po = take (length po) pu.
Proof.
  intros Hi. exists (mk_cb (buffer c) 0 0 0 (maxlen c)).
  pose proof (empty_initialized c Hi) as Hi'.
  split_and!; try reflexivity; try assumption.
  intros ops. destruct (run_queue ops _ Hi') as (pu & po & cf & Hr & _ & _ & Hq).
  exists pu, po, cf. split; [assumption|].
  change (contents (mk_cb (buffer c) 0 0 0 (maxlen c))) with (@nil ptr) in Hq.
  cbn [app] in Hq. subst pu. now rewrite take_app_length.
Qed.

Lemma empty_forgets_witness :
  exists c',
    circular_buffer_empty (Some demo_held)
    = Done (mk_result (Some c') None 0 None) /\ contents c' = [].
Proof.
  destruct (empty_forgets demo_held demo_held_initialized)
    as (c' & Hc & _ & _ & _ & Hq & _).
  exists c'. split; assumption.
Defined.

(** Whatever pushes and pops are made on an initialized buffer, in the end
    [len] is the [len] at the start plus the number of pushes that returned
    0 minus the number of pops that returned 0, and it stays between 0 and
    [maxlen]; [circular_buffer_is_empty] returns 1 exactly when that number
    is 0 and [circular_buffer_is_full] returns 1 exactly when it is
    [maxlen]. *)
Theorem occupancy (ops : list op) (c : circular_buffer) :
  initialized c ->
  exists pu po c',
    run ops c = Done (pu, po, c') /\
    len c' = len c + Z.of_nat (length pu) - Z.of_nat (length po) /\
    0 <= len c' <= maxlen c /\ maxlen c' = maxlen c /\
    (circular_buffer_is_empty (Some c') = (1, None)
     <-> len c + Z.of_nat (length pu) = Z.of_nat (length po)) /\
    (circular_buffer_is_full (Some c') = (1, None)
     <-> len c + Z.of_nat (length pu) - Z.of_nat (length po) = maxlen c).
Proof.
  intros Hi.
  destruct (run_queue ops c Hi) as (pu & po & c' & Hr & Hi' & Hm & Hq).
  exists pu, po, c'. split; [assumption|].
  apply (f_equal length) in Hq. rewrite !length_app, !contents_length in Hq.
  assert (Hl : len c' = len c + Z.of_nat (length pu) - Z.of_nat (length po))
    by (destruct Hi, Hi'; lia).
  split; [assumption|]. split; [destruct Hi'; lia|]. split; [assumption|].
  unfold circular_buffer_is_empty, circular_buffer_is_full. split.
  - destruct (Z.eqb_spec (len c') 0); split; intros H;
      (reflexivity || discriminate || lia).
  - destruct (Z.eqb_spec (len c') (maxlen c')); split; intros H;
      (reflexivity || discriminate || lia).
Qed.

Lemma occupancy_witness :
  exists pu po c',
    run [Push 14; Pop; Pop; Push 15] demo_held = Done (pu, po, c') /\
    len c' = len demo_held + Z.of_nat (length pu) - Z.of_nat (length po).
Proof.
  destruct (occupancy [Push 14; Pop; Pop; Push 15] demo_held
              demo_held_initialized) as (pu & po & c' & Hr & Hl & _).
  exists pu, po, c'. split; assumption.
Defined.

(** On an initialized buffer, right after a push that returned 0
    [circular_buffer_is_empty] returns 0, and right after a pop that
    returned 0 [circular_buffer_is_full] returns 0. *)
Theorem flags_after_push_pop (c : circular_buffer) (x : ptr) (d : list ptr)
    (r : result) :
  initialized c ->
  (circular_buffer_push (Some c) x = Done r -> r_ret r = 0 ->
   circular_buffer_is_empty (r_buf r) = (0, None)) /\
  (circular_buffer_pop (Some c) (Some d) = Done r -> r_ret r = 0 ->
   circular_buffer_is_full (r_buf r) = (0, None)).
Proof.
  intros Hi. split; intros H Hret.
  - destruct (Z.eq_dec (len c) (maxlen c)) as [E|Hne].
    + rewrite push_full in H by assumption. injection H as <-. discriminate.
    + rewrite push_ok in H by assumption. injection H as <-.
      cbn [r_buf circular_buffer_is_empty len after_push].
      destruct (Z.eqb_spec (len c + 1) 0); [destruct Hi; lia|reflexivity].
  - destruct (Z.eq_dec (len c) 0) as [E|Hne].
    + rewrite pop_empty in H by assumption. injection H as <-. discriminate.
    + destruct d as [|p d]; [now apply pop_no_slot in H|].
      rewrite pop_ok in H by (assumption || discriminate). injection H as <-.
      cbn [r_buf circular_buffer_is_full len maxlen after_pop].
      destruct (Z.eqb_spec (len c - 1) (maxlen c));
        [destruct Hi; lia|reflexivity].
Qed.

Lemma flags_after_push_pop_witness :
  circular_buffer_is_empty (Some (after_push demo_held 14)) = (0, None).
Proof.
  exact (proj1 (flags_after_push_pop demo_held 14 [NULL]
                  (mk_result (Some (after_push demo_held 14)) None 0 None)
                  demo_held_initialized) eq_refl eq_refl).
Defined.

(** ** The queue across the bulk transfers *)

Lemma repeated_push_contents (xs : list ptr) :
  forall c count c' n,
  initialized c -> repeated_push xs c count = Done (c', n) ->
  count <= n /\
  contents c' = contents c ++ take (Z.to_nat (n - count)) xs.
Proof.
  induction xs as [|x xs IH]; intros c count c' n Hi H.
  - injection H as <- <-. rewrite Z.sub_diag, app_nil_r. split; [lia|easy].
  - destruct (Z.eq_dec (len c) (maxlen c)) as [E|Hne].
    + rewrite repeated_push_full in H by assumption. injection H as <- <-.
      rewrite Z.sub_diag, app_nil_r. split; [lia|easy].
    + assert (Hlt : len c < maxlen c) by (destruct Hi; lia).
      rewrite repeated_push_cons in H by assumption.
      apply IH in H as [Hle Hq]; [|now apply after_push_initialized].
      split; [lia|]. rewrite Hq, contents_after_push by assumption.
      replace (Z.to_nat (n - count)) with (S (Z.to_nat (n - (count + 1))))
        by lia.
      rewrite <- app_assoc. reflexivity.
Qed.

Lemma after_pops_contents (n : nat) :
  forall c, initialized c -> Z.of_nat n <= len c ->
  initialized (after_pops n c) /\
  contents (after_pops n c) = drop n (contents c) /\
  len (after_pops n c) = len c - Z.of_nat n /\
  maxlen (after_pops n c) = maxlen c.
Proof.
  induction n as [|n IH]; intros c Hi Hn.
  - cbn [after_pops drop]. split_and!; try reflexivity; [assumption|lia].
  - cbn [after_pops].
    destruct (IH (after_pop c)) as (Hi' & Hq & Hl & Hm).
    + apply after_pop_initialized; [assumption|lia].
    + cbn [len after_pop]. lia.
    + rewrite (contents_after_pop c) by (assumption || lia).
      cbn [drop]. cbn [len maxlen after_pop] in *.
      split_and!; try assumption. lia.
Qed.

Lemma after_pops_buffer (n : nat) :
  forall c, buffer (after_pops n c) = buffer c.
Proof.
  induction n as [|n IH]; intros c; [reflexivity|].
  cbn [after_pops]. now rewrite IH.
Qed.

(** [circular_buffer_set_data] on an initialized buffer, with an array of at
    least [len] elements and [0 <= offset <= len], puts
    [data_buf[offset]], [data_buf[offset + 1]], ... at the end of the queue
    in this order, as many as the value returned says, whether or not the
    cursors wrap around the end of the block; the buffer stays initialized
    and the array is not written. *)
Theorem set_data_appends (c : circular_buffer) (d : list ptr)
    (dlen offset : Z) :
  initialized c -> 0 <= dlen <= INT_MAX -> dlen <= Z.of_nat (length d) ->
  0 <= offset <= dlen ->
  exists c' n,
    circular_buffer_set_data (Some c) (Some d) dlen offset
    = Done (mk_result (Some c') (Some d) n None) /\
    n = Z.min (maxlen c - len c) (dlen - offset) /\
    initialized c' /\
    contents c' = contents c ++ take (Z.to_nat n) (drop (Z.to_nat offset) d).
Proof.
  intros Hi Hd Hfit Ho.
  destruct (set_data_loop_spec d dlen offset ltac:(lia) ltac:(lia)
              ltac:(lia) (Z.to_nat (maxlen c - len c)) c 0 Hi)
    as (c' & Hl & Hp & Hi' & Hm & Hn); try lia.
  rewrite Z.add_0_r in Hp. rewrite Z.sub_0_r, Z.add_0_l in *.
  exists c', (Z.min (maxlen c - len c) (dlen - offset)).
  unfold circular_buffer_set_data.
  destruct (Z.ltb_spec dlen 0); [lia|]. rewrite Hl. cbn [bind fst snd].
  split_and!; try reflexivity; try assumption.
  apply repeated_push_contents in Hp as [_ Hq]; [|assumption].
  rewrite Hq, Z.sub_0_r. unfold window. rewrite take_take.
  do 2 f_equal. lia.
Qed.

Lemma set_data_appends_witness :
  exists c' n,
    circular_buffer_set_data (Some demo_held) (Some [21; 22; 23]) 3 1
    = Done (mk_result (Some c') (Some [21; 22; 23]) n None) /\
    n = Z.min (maxlen demo_held - len demo_held) (3 - 1) /\
    initialized c' /\
    contents c'
    = contents demo_held ++ take (Z.to_nat n) (drop (Z.to_nat 1) [21; 22; 23]).
Proof.
  apply (set_data_appends demo_held [21; 22; 23] 3 1 demo_held_initialized);
    cbn; unfold INT_MAX; lia.
Defined.

(** [circular_buffer_get_data] on an initialized buffer, with an array of at
    least [len] elements and [0 <= offset < len], returns the number [n] of
    elements moved, the smaller of the number held and [len - offset]; the
    [k]-th oldest element is at [data_buf[offset + k]] for every [k < n];
    the queue left is the old one without its [n] oldest elements, and the
    buffer stays initialized with its block as it was. *)
Theorem get_data_queue (c : circular_buffer) (d : list ptr)
    (dlen offset : Z) :
  initialized c -> 0 < dlen <= INT_MAX -> dlen <= Z.of_nat (length d) ->
  0 <= offset < dlen ->
  exists c' d' n,
    circular_buffer_get_data (Some c) (Some d) dlen offset
    = Done (mk_result (Some c') (Some d') (Z.of_nat n) None) /\
    Z.of_nat n = Z.min (len c) (dlen - offset) /\
    initialized c' /\ buffer c' = buffer c /\
    contents c' = drop n (contents c) /\
    length d' = length d /\
    forall k : nat, (k < n)%nat ->
      d' !! (Z.to_nat offset + k)%nat = contents c !! k.
Proof.
  intros Hi Hd Hfit Ho.
  destruct (get_data_moves c d dlen offset Hi Hd Hfit Ho) as [Hg _].
  set (n := Z.to_nat (Z.min (len c) (dlen - offset))) in *.
  assert (Hn : Z.of_nat n = Z.min (len c) (dlen - offset))
    by (destruct Hi; lia).
  destruct (after_pops_contents n c Hi) as (Hi' & Hq & Hl & Hm); [lia|].
  eexists _, _, n. rewrite Hn. split; [exact Hg|].
  split_and!; try reflexivity; try assumption.
  - apply after_pops_buffer.
  - rewrite length_inserts. apply zero_bytes_length.
  - intros k Hk.
    assert (Hlen : length (take n (contents c)) = n).
    { rewrite length_take, contents_length. destruct Hi; lia. }
    rewrite list_lookup_inserts
      by (rewrite ?Hlen, ?zero_bytes_length; lia).
    replace (Z.to_nat offset + k - Z.to_nat offset)%nat with k by lia.
    now apply lookup_take_lt.
Qed.

Lemma get_data_queue_witness :
  exists c' d' n,
    circular_buffer_get_data (Some demo_held) (Some [NULL; NULL; NULL]) 3 1
    = Done (mk_result (Some c') (Some d') (Z.of_nat n) None) /\
    Z.of_nat n = Z.min (len demo_held) (3 - 1) /\
    contents c' = drop n (contents demo_held).
Proof.
  assert (H1 : 0 < 3 <= INT_MAX) by (unfold INT_MAX; lia).
  assert (H2 : 3 <= Z.of_nat (length [NULL; NULL; NULL])) by (cbn; lia).
  assert (H3 : 0 <= 1 < 3) by lia.
  destruct (get_data_queue demo_held [NULL; NULL; NULL] 3 1
              demo_held_initialized H1 H2 H3)
    as (c' & d' & n & Hg & Hn & _ & _ & Hq & _).
  exists c', d', n. split_and!; assumption.
Defined.

(** ** How far the zero fill reaches *)

Lemma zero_bytes_lookup (d : list ptr) :
  forall (n : Z) (k : nat),
  (sizeof_ptr * (Z.of_nat k + 1) <= n -> (k < length d)%nat ->
   zero_bytes d n !! k = Some NULL) /\
  (n <= sizeof_ptr * Z.of_nat k -> zero_bytes d n !! k = d !! k).
Proof.
  induction d as [|p d IH]; intros n k; cbn [zero_bytes length].
  - split; [unfold sizeof_ptr; lia|reflexivity].
  - destruct (Z.leb_spec n 0);
      [split; [unfold sizeof_ptr; lia|reflexivity]|].
    destruct (Z.leb_spec sizeof_ptr n).
    + destruct k as [|k]; [split; [reflexivity|unfold sizeof_ptr; lia]|].
      cbn [lookup list_lookup]. destruct (IH (n - sizeof_ptr) k) as [H1 H2].
      split; intros; [apply H1|apply H2]; unfold sizeof_ptr in *; lia.
    + destruct k as [|k]; [split; unfold sizeof_ptr in *; lia|].
      split; [unfold sizeof_ptr in *; lia|reflexivity].
Qed.

(** The zero fill of [circular_buffer_get_data] is
    [memset(data_buf, 0, len)], [len] bytes.  So on an initialized buffer,
    with an array of at least [len] elements and [0 <= offset < len], an
    element of the array that the call does not write into is null
    afterwards when it lies within the first [len] bytes, and keeps the
    value it had when it lies beyond them, which is the case of every
    element from place [len / 8] rounded up on. *)
Theorem get_data_zero_fill (c : circular_buffer) (d : list ptr)
    (dlen offset : Z) :
  initialized c -> 0 < dlen <= INT_MAX -> dlen <= Z.of_nat (length d) ->
  0 <= offset < dlen ->
  exists c' d',
    circular_buffer_get_data (Some c) (Some d) dlen offset
    = Done (mk_result (Some c') (Some d')
                      (Z.min (len c) (dlen - offset)) None) /\
    forall j : nat,
      (Z.of_nat j < offset \/
       offset + Z.min (len c) (dlen - offset) <= Z.of_nat j) ->
      (sizeof_ptr * (Z.of_nat j + 1) <= dlen -> d' !! j = Some NULL) /\
      (dlen <= sizeof_ptr * Z.of_nat j -> d' !! j = d !! j).
Proof.
  intros Hi Hd Hfit Ho.
  destruct (get_data_moves c d dlen offset Hi Hd Hfit Ho) as [Hg _].
  eexists _, _. split; [exact Hg|]. intros j Hj.
  assert (Hlen : length (take (Z.to_nat (Z.min (len c) (dlen - offset)))
                              (contents c))
                 = Z.to_nat (Z.min (len c) (dlen - offset))).
  { rewrite length_take, contents_length. destruct Hi; lia. }
  assert (Hout : list_inserts (Z.to_nat offset)
                   (take (Z.to_nat (Z.min (len c) (dlen - offset)))
                         (contents c)) (zero_bytes d dlen) !! j
                 = zero_bytes d dlen !! j).
  { destruct Hj as [Hj|Hj].
    - apply list_lookup_inserts_lt. lia.
    - apply list_lookup_inserts_ge. rewrite Hlen. destruct Hi; lia. }
  rewrite Hout. destruct (zero_bytes_lookup d dlen j) as [H1 H2].
  split; [|exact H2]. intros H. apply H1; [assumption|].
  unfold sizeof_ptr in H. lia.
Qed.

Lemma get_data_zero_fill_witness :
  exists c' d',
    circular_buffer_get_data (Some demo_fresh) (Some [7; 8; 9]) 3 0
    = Done (mk_result (Some c') (Some d')
                      (Z.min (len demo_fresh) (3 - 0)) None) /\
    d' !! 1%nat = [7; 8; 9] !! 1%nat.
Proof.
  assert (H1 : 0 < 3 <= INT_MAX) by (unfold INT_MAX; lia).
  assert (H2 : 3 <= Z.of_nat (length [7; 8; 9])) by (cbn; lia).
  assert (H3 : 0 <= 0 < 3) by lia.
  destruct (get_data_zero_fill demo_fresh [7; 8; 9] 3 0
              (reachable_initialized demo_fresh demo_fresh_reachable)
              H1 H2 H3) as (c' & d' & Hg & Hz).
  exists c', d'. split; [exact Hg|].
  apply (Hz 1%nat); [right; cbn; lia|unfold sizeof_ptr; lia].
Defined.

(** ** Round trips *)

Lemma contents_empty (c : circular_buffer) : len c = 0 -> contents c = [].
Proof. intros E. unfold contents. now rewrite E. Qed.

(** Filling an initialized buffer that holds nothing with the first [n]
    elements of an array, [n] at most the capacity, and draining it at once
    into an array of at least [n] elements gives these [n] elements back in
    the same order: both calls return [n], the first [n] elements of the
    second array are those of the first, and the buffer holds nothing
    again. *)
Theorem fill_drain_round_trip (c : circular_buffer) (src d : list ptr)
    (n : Z) :
  initialized c -> len c = 0 -> 0 < n <= maxlen c ->
  n <= Z.of_nat (length src) -> n <= Z.of_nat (length d) ->
  exists c1 c2 d',
    circular_buffer_set_data (Some c) (Some src) n 0
    = Done (mk_result (Some c1) (Some src) n None) /\
    circular_buffer_get_data (Some c1) (Some d) n 0
    = Done (mk_result (Some c2) (Some d') n None) /\
    take (Z.to_nat n) d' = take (Z.to_nat n) src /\
    circular_buffer_is_empty (Some c2) = (1, None).
Proof.
  intros Hi Hl Hn Hsrc Hd.
  assert (Hint : n <= INT_MAX) by (destruct Hi; lia).
  destruct (set_data_loop_spec src n 0 ltac:(lia) Hint Hsrc
              (Z.to_nat (maxlen c - len c)) c 0 Hi)
    as (c1 & Hs & Hp & Hi1 & Hm1 & Hl1); try lia.
  rewrite Z.add_0_r in Hp. rewrite !Z.sub_0_r, Z.add_0_l in *.
  assert (Hk : Z.min (maxlen c - len c) n = n) by lia. rewrite Hk in *.
  apply repeated_push_contents in Hp as [_ Hq]; [|assumption].
  rewrite (contents_empty c) in Hq by assumption. cbn [app] in Hq.
  rewrite Z.sub_0_r in Hq. unfold window in Hq.
  rewrite Z.sub_0_r in Hq. change (Z.to_nat 0) with 0%nat in Hq.
  rewrite drop_0, take_take, Nat.min_id in Hq.
  destruct (get_data_moves c1 d n 0 Hi1) as [Hg _]; try lia.
  rewrite Z.sub_0_r in Hg. change (Z.to_nat 0) with 0%nat in Hg.
  assert (Hk1 : Z.min (len c1) n = n) by lia. rewrite Hk1 in Hg.
  destruct (after_pops_contents (Z.to_nat n) c1 Hi1) as (_ & _ & Hl2 & _);
    [lia|].
  eexists c1, _, _. split.
  { unfold circular_buffer_set_data.
    destruct (Z.ltb_spec n 0); [lia|]. rewrite Hs. reflexivity. }
  split; [exact Hg|]. split.
  - rewrite Hq, take_take, Nat.min_id.
    assert (Hlt : length (take (Z.to_nat n) src) = Z.to_nat n)
      by (rewrite length_take; lia).
    apply list_eq. intros i.
    destruct (Nat.lt_ge_cases i (Z.to_nat n)) as [Hlt'|Hge].
    + rewrite lookup_take_lt by assumption.
      rewrite list_lookup_inserts
        by (rewrite ?Hlt, ?zero_bytes_length; lia).
      now rewrite Nat.sub_0_r.
    + rewrite !lookup_take_ge by assumption. reflexivity.
  - unfold circular_buffer_is_empty.
    destruct (Z.eqb_spec (len (after_pops (Z.to_nat n) c1)) 0);
      [reflexivity|lia].
Qed.

Lemma fill_drain_round_trip_witness :
  exists c1 c2 d',
    circular_buffer_set_data (Some demo_fresh) (Some [21; 22; 23]) 2 0
    = Done (mk_result (Some c1) (Some [21; 22; 23]) 2 None) /\
    circular_buffer_get_data (Some c1) (Some [7; 8; 9]) 2 0
    = Done (mk_result (Some c2) (Some d') 2 None) /\
    take (Z.to_nat 2) d' = take (Z.to_nat 2) [21; 22; 23] /\
    circular_buffer_is_empty (Some c2) = (1, None).
Proof.
  apply (fill_drain_round_trip demo_fresh [21; 22; 23] [7; 8; 9] 2
           (reachable_initialized demo_fresh demo_fresh_reachable));
    cbn; lia.
Defined.

(** ** Peeking, as the code does it *)

(** With [offset == 0], [circular_buffer_peek] on an initialized buffer of
    capacity at least 1 and [circular_buffer_get_data] with the same array
    and [len] return the same count, the smaller of the number held and
    [len], and leave the same array; the peek leaves the buffer as it was,
    whatever [offset_cb] is. *)
Theorem peek_agrees_with_get_data (c : circular_buffer) (d : list ptr)
    (dlen offset_cb : Z) :
  initialized c -> 1 <= maxlen c ->
  0 < dlen <= INT_MAX -> dlen <= Z.of_nat (length d) ->
  exists c' d',
    circular_buffer_peek (Some c) (Some d) dlen 0 offset_cb
    = Done (mk_result (Some c) (Some d') (Z.min (len c) dlen) None) /\
    circular_buffer_get_data (Some c) (Some d) dlen 0
    = Done (mk_result (Some c') (Some d') (Z.min (len c) dlen) None).
Proof.
  intros Hi Hcap Hd Hfit.
  assert (Hl : 0 <= len c /\ 0 <= tail c <= INT_MAX) by (destruct Hi; lia).
  pose proof (peek_copies c d dlen 0 offset_cb Hi Hcap Hd Hfit) as Hp.
  destruct (get_data_moves c d dlen 0 Hi Hd Hfit) as [Hg _]; [lia|].
  rewrite Hp, Hg by (unfold INT_MAX in *; lia).
  change (2 * 0) with 0. rewrite !Z.sub_0_r, Z.add_0_l, drop_0.
  rewrite Z.max_r by lia. eexists _, _. split; reflexivity.
Qed.

Lemma peek_agrees_with_get_data_witness :
  exists c' d',
    circular_buffer_peek (Some demo_held) (Some [7; 8; 9]) 3 0 5
    = Done (mk_result (Some demo_held) (Some d')
                      (Z.min (len demo_held) 3) None) /\
    circular_buffer_get_data (Some demo_held) (Some [7; 8; 9]) 3 0
    = Done (mk_result (Some c') (Some d') (Z.min (len demo_held) 3) None).
Proof.
  apply (peek_agrees_with_get_data demo_held [7; 8; 9] 3 5
           demo_held_initialized); cbn; unfold INT_MAX; lia.
Defined.

(** For any [offset >= 0], [circular_buffer_peek] on an initialized buffer
    of capacity at least 1 returns [offset + m], where [m] is the number of
    elements copied, the smaller of [len - offset] for the number held and
    [len - 2 * offset] for the array length, or 0 when that is negative.
    The element [offset + k] places after the oldest one is at
    [data_buf[2 * offset + k]] for every [k < m].  So the value returned is
    never less than [offset], also on a buffer that holds nothing. *)
Theorem peek_with_offset (c : circular_buffer) (d : list ptr)
    (dlen offset offset_cb : Z) :
  initialized c -> 1 <= maxlen c ->
  0 < dlen <= INT_MAX -> dlen <= Z.of_nat (length d) ->
  0 <= offset -> tail c + offset <= INT_MAX -> 2 * offset <= INT_MAX ->
  exists d' (m : nat),
    circular_buffer_peek (Some c) (Some d) dlen offset offset_cb
    = Done (mk_result (Some c) (Some d') (offset + Z.of_nat m) None) /\
    Z.of_nat m = Z.max 0 (Z.min (len c - offset) (dlen - 2 * offset)) /\
    length d' = length d /\
    forall k : nat, (k < m)%nat ->
      d' !! (Z.to_nat (2 * offset) + k)%nat
      = contents c !! (Z.to_nat offset + k)%nat.
Proof.
  intros Hi Hcap Hd Hfit Ho Ht Ho2.
  pose proof (peek_copies c d dlen offset offset_cb
                Hi Hcap Hd Hfit Ho Ht Ho2) as Hp.
  set (m := Z.to_nat (Z.min (len c - offset) (dlen - 2 * offset))) in *.
  assert (Hm : Z.of_nat m
               = Z.max 0 (Z.min (len c - offset) (dlen - 2 * offset)))
    by lia.
  eexists _, m. rewrite Hm. split; [exact Hp|].
  assert (Hlen : length (take m (drop (Z.to_nat offset) (contents c))) = m).
  { rewrite length_take, length_drop, contents_length. lia. }
  split_and!; try reflexivity.
  - rewrite length_inserts. apply zero_bytes_length.
  - intros k Hk.
    rewrite list_lookup_inserts
      by (rewrite ?Hlen, ?zero_bytes_length; lia).
    replace (Z.to_nat (2 * offset) + k - Z.to_nat (2 * offset))%nat
      with k by lia.
    rewrite lookup_take_lt by assumption. apply lookup_drop.
Qed.

Lemma peek_with_offset_witness :
  exists d' (m : nat),
    circular_buffer_peek (Some demo_held) (Some [7; 8; 9; 10]) 4 1 0
    = Done (mk_result (Some demo_held) (Some d') (1 + Z.of_nat m) None) /\
    Z.of_nat m = Z.max 0 (Z.min (len demo_held - 1) (4 - 2 * 1)).
Proof.
  assert (H1 : 0 < 4 <= INT_MAX) by (unfold INT_MAX; lia).
  assert (H2 : 4 <= Z.of_nat (length [7; 8; 9; 10])) by (cbn; lia).
  assert (H3 : 1 <= maxlen demo_held) by (cbn; lia).
  assert (H4 : tail demo_held + 1 <= INT_MAX) by (cbn; unfold INT_MAX; lia).
  assert (H5 : 2 * 1 <= INT_MAX) by (unfold INT_MAX; lia).
  destruct (peek_with_offset demo_held [7; 8; 9; 10] 4 1 0
              demo_held_initialized H3 H1 H2 ltac:(lia) H4 H5)
    as (d' & m & Hp & Hm & _).
  exists d', m. split; assumption.
Defined.

(** ** Offsets below zero *)

Lemma store_negative (a : option (list ptr)) (i : Z) (v : ptr) :
  i < 0 -> store a i v = UB.
Proof.
  intros H. unfold store. destruct a as [l|]; [|reflexivity].
  destruct (Z.leb_spec 0 i); [lia|reflexivity].
Qed.

Lemma load_negative (a : option (list ptr)) (i : Z) :
  i < 0 -> load a i = UB.
Proof.
  intros H. unfold load. destruct a as [l|]; [|reflexivity].
  destruct (Z.leb_spec 0 i); [lia|reflexivity].
Qed.

(** None of the three bulk calls tests [offset].  With a negative [offset],
    on an initialized buffer and an array of at least [len] elements,
    [circular_buffer_get_data] on a buffer that holds something writes
    before the start of the array, [circular_buffer_set_data] on a buffer
    that is not full reads before its start, and [circular_buffer_peek]
    does one or the other on any buffer of capacity at least 1: each of
    these calls has undefined behaviour instead of returning -1. *)
Theorem negative_offset_undefined (c : circular_buffer) (d : list ptr)
    (dlen offset offset_cb : Z) :
  initialized c -> INT_MIN <= offset < 0 ->
  0 < dlen <= INT_MAX -> dlen <= Z.of_nat (length d) ->
  (0 < len c ->
   circular_buffer_get_data (Some c) (Some d) dlen offset = UB) /\
  (len c < maxlen c ->
   circular_buffer_set_data (Some c) (Some d) dlen offset = UB) /\
  (1 <= maxlen c ->
   circular_buffer_peek (Some c) (Some d) dlen offset offset_cb = UB).
Proof.
  intros Hi Ho Hd Hfit.
  assert (Hr : 0 <= len c <= maxlen c /\ maxlen c <= INT_MAX /\
               0 <= tail c < Z.max 1 (maxlen c)) by (destruct Hi; lia).
  split_and!.
  - intros Hlt. unfold circular_buffer_get_data.
    destruct (Z.leb_spec dlen 0); [lia|].
    rewrite memset_zero_ok by lia. cbn [bind].
    replace (Z.to_nat (len c)) with (S (Z.to_nat (len c - 1))) by lia.
    rewrite get_data_loop_step by assumption.
    rewrite int_add_ok by (unfold INT_MIN, INT_MAX in *; lia). cbn [bind].
    destruct (Z.ltb_spec (0 + offset) dlen); [|lia].
    rewrite int_add_ok by (unfold INT_MIN, INT_MAX in *; lia). cbn [bind].
    rewrite store_negative by lia. reflexivity.
  - intros Hlt. unfold circular_buffer_set_data.
    destruct (Z.ltb_spec dlen 0); [lia|].
    replace (Z.to_nat (maxlen c - len c))
      with (S (Z.to_nat (maxlen c - len c - 1))) by lia.
    rewrite set_data_loop_step by assumption.
    rewrite int_add_ok by (unfold INT_MIN, INT_MAX in *; lia). cbn [bind].
    destruct (Z.ltb_spec (0 + offset) dlen); [|lia].
    rewrite int_add_ok by (unfold INT_MIN, INT_MAX in *; lia). cbn [bind].
    rewrite load_negative by lia. reflexivity.
  - intros Hcap. unfold circular_buffer_peek.
    destruct (Z.leb_spec dlen 0); [lia|].
    rewrite memset_zero_ok by lia. cbn [bind].
    rewrite int_add_ok by (unfold INT_MIN, INT_MAX in *; lia). cbn [bind].
    assert (Hrem : exists i, int_rem (tail c + offset) (maxlen c) = Done i).
    { unfold int_rem. destruct (Z.eqb_spec (maxlen c) 0); [lia|].
      destruct (Z.eqb_spec (maxlen c) (-1)); [lia|].
      rewrite andb_false_r. eauto. }
    destruct Hrem as [i ->]. cbn [bind].
    replace (Z.to_nat (len c - offset))
      with (S (Z.to_nat (len c - offset - 1))) by lia.
    cbn [peek_loop]. destruct (Z.ltb_spec offset (len c)); [|lia].
    destruct (int_add offset offset) as [s| |] eqn:Hs; cbn [bind];
      [|reflexivity|now apply int_add_fuel in Hs].
    apply int_add_done in Hs as Hs'.
    destruct (Z.ltb_spec s dlen); [|lia].
    destruct (load (buffer c) i) as [v| |] eqn:Hv; cbn [bind];
      [|reflexivity|now apply load_fuel in Hv].
    rewrite store_negative by lia. reflexivity.
Qed.

Lemma negative_offset_undefined_witness :
  circular_buffer_get_data (Some demo_held) (Some [7; 8; 9]) 3 (-1) = UB.
Proof.
  assert (H1 : INT_MIN <= -1 < 0) by (unfold INT_MIN; lia).
  assert (H2 : 0 < 3 <= INT_MAX) by (unfold INT_MAX; lia).
  assert (H3 : 3 <= Z.of_nat (length [7; 8; 9])) by (cbn; lia).
  assert (H4 : 0 < len demo_held) by (cbn; lia).
  exact (proj1 (negative_offset_undefined demo_held [7; 8; 9] 3 (-1) 0
                  demo_held_initialized H1 H2 H3) H4).
Defined.

(** ** What the bulk transfers leave alone *)

Lemma store_done_length (d d' : list ptr) (i : Z) (v : ptr) :
  store (Some d) i v = Done d' -> length d' = length d.
Proof.
  unfold store. destruct (_ && _); [|discriminate].
  intros [= <-]. apply length_insert.
Qed.

Lemma get_data_loop_frame (dlen offset : Z) (fuel : nat) :
  forall c d count r,
  get_data_loop fuel c d dlen offset count = Done r ->
  buffer r.1.1 = buffer c /\ head r.1.1 = head c /\
  maxlen r.1.1 = maxlen c /\ len r.1.1 + r.2 = len c + count /\
  length r.1.2 = length d.
Proof.
  induction fuel as [|fuel IH]; intros c d count r H.
  - apply get_data_loop_O in H. subst r. cbn. auto.
  - cbn [get_data_loop] in H.
    destruct (0 <? len c); [|injection H as <-; cbn; auto].
    apply bind_done in H as (s & _ & H).
    destruct (s <? dlen); [|injection H as <-; cbn; auto].
    apply bind_done in H as (v & _ & H).
    apply bind_done in H as (i & _ & H).
    apply bind_done in H as (d' & Hst & H).
    apply bind_done in H as (count' & Hc & H).
    apply bind_done in H as (t & _ & H).
    apply bind_done in H as (l & Hl & H).
    apply IH in H as (Hb & Hh & Hm & Hn & Hd). cbn in Hb, Hh, Hm, Hn.
    apply int_add_done in Hc, Hl. apply store_done_length in Hst.
    split_and!; try assumption; (lia || congruence).
Qed.

Lemma set_data_loop_frame (dlen offset : Z) (fuel : nat) :
  forall c d count r,
  set_data_loop fuel c d dlen offset count = Done r ->
  tail r.1 = tail c /\ maxlen r.1 = maxlen c /\
  len r.1 - r.2 = len c - count.
Proof.
  induction fuel as [|fuel IH]; intros c d count r H.
  - apply set_data_loop_O in H. subst r. cbn. auto.
  - cbn [set_data_loop] in H.
    destruct (len c <? maxlen c); [|injection H as <-; cbn; auto].
    apply bind_done in H as (s & _ & H).
    destruct (s <? dlen); [|injection H as <-; cbn; auto].
    apply bind_done in H as (h & _ & H).
    apply bind_done in H as (i & _ & H).
    apply bind_done in H as (v & _ & H).
    apply bind_done in H as (count' & Hc & H).
    apply bind_done in H as (b & _ & H).
    apply bind_done in H as (l & Hl & H).
    apply IH in H as (Ht & Hm & Hn). cbn in Ht, Hm, Hn.
    apply int_add_done in Hc, Hl. split_and!; try assumption. lia.
Qed.

(** Whatever the state of the object behind a non-null [c_buf], initialized
    or not, a call of [circular_buffer_get_data] that returns leaves its
    block, [head] and [maxlen] as they were.  It returns -1 with the object
    and the array untouched, or a count that is not negative, and then
    [len] has gone down by exactly that count and the array has the length
    it had. *)
Theorem get_data_frame (c : circular_buffer) (data_buf : option (list ptr))
    (dlen offset : Z) (r : result) :
  circular_buffer_get_data (Some c) data_buf dlen offset = Done r ->
  exists c',
    r_buf r = Some c' /\ buffer c' = buffer c /\ head c' = head c /\
    maxlen c' = maxlen c /\
    ((r_ret r = -1 /\ c' = c /\ r_data r = data_buf) \/
     (0 <= r_ret r /\ len c' = len c - r_ret r /\
      exists d d', data_buf = Some d /\ r_data r = Some d' /\
                   length d' = length d)).
Proof.
  intros H. unfold circular_buffer_get_data in H.
  destruct data_buf as [d|];
    [|injection H as <-; exists c; cbn; split_and!; auto].
  destruct (dlen <=? 0);
    [injection H as <-; exists c; cbn; split_and!; auto|].
  apply bind_done in H as (d0 & Hm & H).
  apply bind_done in H as (t & Hloop & H). injection H as <-.
  pose proof (get_data_loop_count _ _ _ _ _ _ _ Hloop) as Hc.
  apply get_data_loop_frame in Hloop as (Hb & Hh & Hx & Hn & Hd).
  exists t.1.1. cbn [r_buf r_ret r_data]. split_and!; try assumption;
    try reflexivity.
  right. split_and!; try lia. exists d, t.1.2.
  split_and!; try reflexivity. rewrite Hd.
  unfold memset_zero in Hm. destruct (_ <=? _); [|discriminate].
  injection Hm as <-. apply zero_bytes_length.
Qed.

Lemma get_data_frame_witness :
  exists c',
    r_buf (mk_result (Some (after_pops 2 demo_held)) (Some [NULL; 11; 12])
                     2 None) = Some c' /\
    buffer c' = buffer demo_held.
Proof.
  destruct (get_data_frame demo_held (Some [NULL; NULL; NULL]) 3 1
              (mk_result (Some (after_pops 2 demo_held))
                         (Some [NULL; 11; 12]) 2 None) eq_refl)
    as (c' & Hc & Hb & _).
  exists c'. split; assumption.
Defined.

(** Whatever the state of the object behind a non-null [c_buf], a call of
    [circular_buffer_set_data] that returns leaves [tail], [maxlen] and the
    caller's array as they were.  It returns -1 with the object untouched,
    or a count that is not negative, and then [len] has gone up by exactly
    that count. *)
Theorem set_data_frame (c : circular_buffer) (data_buf : option (list ptr))
    (dlen offset : Z) (r : result) :
  circular_buffer_set_data (Some c) data_buf dlen offset = Done r ->
  exists c',
    r_buf r = Some c' /\ tail c' = tail c /\ maxlen c' = maxlen c /\
    r_data r = data_buf /\
    ((r_ret r = -1 /\ c' = c) \/
     (0 <= r_ret r /\ len c' = len c + r_ret r)).
Proof.
  intros H. unfold circular_buffer_set_data in H.
  destruct data_buf as [d|];
    [|injection H as <-; exists c; cbn; split_and!; auto].
  destruct (dlen <? 0);
    [injection H as <-; exists c; cbn; split_and!; auto|].
  apply bind_done in H as (t & Hloop & H). injection H as <-.
  pose proof (set_data_loop_count _ _ _ _ _ _ _ Hloop) as Hc.
  apply set_data_loop_frame in Hloop as (Ht & Hm & Hn).
  exists t.1. cbn [r_buf r_ret r_data].
  split_and!; try assumption; try reflexivity. right. lia.
Qed.

Lemma set_data_frame_witness :
  exists c',
    r_buf (mk_result (Some (after_push demo_held 22)) (Some [21; 22; 23])
                     1 None) = Some c' /\
    tail c' = tail demo_held.
Proof.
  destruct (set_data_frame demo_held (Some [21; 22; 23]) 3 1
              (mk_result (Some (after_push demo_held 22))
                         (Some [21; 22; 23]) 1 None) eq_refl)
    as (c' & Hc & Ht & _).
  exists c'. split; assumption.
Defined.

(** ** Capacities below zero *)

(** [circular_buffer_init] does not test [max_len].  For a negative [int]
    capacity the byte count [sizeof(void * ) * max_len], computed in
    [size_t], wraps to more than [PTRDIFF_MAX]; an allocator that grants no
    such request makes the call return -1 with [errno] set to [ENOMEM],
    the block pointer set to null and the four counters of the object left
    as they were. *)
Theorem init_negative_capacity (malloc : allocator) (c0 : circular_buffer)
    (max_len : Z) :
  malloc_sane malloc -> INT_MIN <= max_len < 0 ->
  PTRDIFF_MAX < size_mul sizeof_ptr (to_size_t max_len) /\
  circular_buffer_init malloc (Some c0) max_len
  = mk_result (Some (mk_cb None (head c0) (tail c0) (len c0) (maxlen c0)))
              None (-1) (Some ENOMEM).
Proof.
  intros Hs Hr.
  assert (Hreq : PTRDIFF_MAX < size_mul sizeof_ptr (to_size_t max_len)).
  { rewrite init_request by (unfold INT_MAX; lia).
    destruct (Z.leb_spec 0 max_len); [lia|].
    unfold PTRDIFF_MAX, SIZE_MOD, INT_MIN in *. lia. }
  split; [assumption|]. unfold circular_buffer_init.
  destruct (malloc _) as [blk|] eqn:Hm; [|reflexivity].
  apply Hs in Hm. lia.
Qed.

Lemma init_negative_capacity_witness :
  circular_buffer_init demo_malloc (Some demo_object) (-5)
  = mk_result (Some (mk_cb None 7 7 7 7)) None (-1) (Some ENOMEM).
Proof.
  assert (H : INT_MIN <= -5 < 0) by (unfold INT_MIN; lia).
  exact (proj2 (init_negative_capacity demo_malloc demo_object (-5)
                  demo_malloc_sane H)).
Defined.
